(** * Barren Engine: the per-connection packet engine

    A shallow embedding of the framing pipeline ([Crypto], [Compression],
    [NetworkManager::processOutgoingData] / [processIncomingData]), the
    reliability tables of [Connection], the fragmenter / reassembler of
    [NetworkManager] and the [PacketScheduler], followed by the properties
    of the specification checked against them.

    Conventions.  A [uint8_t] is a [Z] in [0, 256); a [std::vector<uint8_t>]
    is a [list Z].  A [uint32_t] is a [Z] with its wrap-around written out
    ([u32]).  A [steady_clock::time_point] is a [Z] counting nanoseconds.
    A C++ exception is the [Throw] branch of [result]. *)

From Stdlib Require Import ZArith List Lia QArith.
From stdpp Require Import gmap list.
Import ListNotations.

#[local] Open Scope Z_scope.

(** ** Fixed-width integers and vectors *)

(** [static_cast<uint8_t>] *)
Definition u8 (z : Z) : Z := z mod 256.

(** [static_cast<uint32_t>] *)
Definition u32 (z : Z) : Z := z mod 2 ^ 32.

(** [v[i]] on an index known to be in range; 0 is never read. *)
Definition at_ (v : list Z) (i : nat) : Z := nth i v 0.

(** [v.size()] as an integer *)
Definition size {A} (v : list A) : Z := Z.of_nat (length v).

(** [std::rotate(v.begin() + first, v.begin() + middle, v.begin() + last)]:
    the element at [middle] becomes the element at [first]. *)
Definition rotate {A} (first middle last : nat) (v : list A) : list A :=
  take first v
    ++ take (last - middle) (drop middle v)
    ++ take (middle - first) (drop first v)
    ++ drop last v.

(** C++ exceptions thrown by the crypto layer. *)
Inductive exn : Type :=
  | invalid_argument
  | runtime_error.

(** What a call does: it returns, it throws, it is still running when the
    fuel of the model is spent, or it steps outside defined behaviour (an
    index past the end of a vector, an integer division by zero). *)
Inductive result (A : Type) : Type :=
  | Ok (a : A)
  | Throw (e : exn)
  | NoReturn
  | Undefined.
Arguments Ok {A} a.
Arguments Throw {A} e.
Arguments NoReturn {A}.
Arguments Undefined {A}.

Definition bind {A B} (r : result A) (k : A -> result B) : result B :=
  match r with
  | Ok a => k a
  | Throw e => Throw e
  | NoReturn => NoReturn
  | Undefined => Undefined
  end.

Notation "'try!' x ':=' r 'in' k" := (bind r (fun x => k))
  (at level 10, x name, k at level 200).

(** ** Crypto.cpp *)

Module Crypto.

Definition KEY_SIZE_128 : Z := 128.
Definition KEY_SIZE_256 : Z := 256.
Definition BLOCK_SIZE : nat := 16.
Definition GCM_TAG_SIZE : nat := 16.
Definition IV_SIZE : nat := 12.

Inductive Mode : Type := ECB | CBC | GCM.

Definition SBOX : list Z :=
  [ 0x63; 0x7c; 0x77; 0x7b; 0xf2; 0x6b; 0x6f; 0xc5; 0x30; 0x01; 0x67; 0x2b; 0xfe; 0xd7; 0xab; 0x76;
    0xca; 0x82; 0xc9; 0x7d; 0xfa; 0x59; 0x47; 0xf0; 0xad; 0xd4; 0xa2; 0xaf; 0x9c; 0xa4; 0x72; 0xc0;
    0xb7; 0xfd; 0x93; 0x26; 0x36; 0x3f; 0xf7; 0xcc; 0x34; 0xa5; 0xe5; 0xf1; 0x71; 0xd8; 0x31; 0x15;
    0x04; 0xc7; 0x23; 0xc3; 0x18; 0x96; 0x05; 0x9a; 0x07; 0x12; 0x80; 0xe2; 0xeb; 0x27; 0xb2; 0x75;
    0x09; 0x83; 0x2c; 0x1a; 0x1b; 0x6e; 0x5a; 0xa0; 0x52; 0x3b; 0xd6; 0xb3; 0x29; 0xe3; 0x2f; 0x84;
    0x53; 0xd1; 0x00; 0xed; 0x20; 0xfc; 0xb1; 0x5b; 0x6a; 0xcb; 0xbe; 0x39; 0x4a; 0x4c; 0x58; 0xcf;
    0xd0; 0xef; 0xaa; 0xfb; 0x43; 0x4d; 0x33; 0x85; 0x45; 0xf9; 0x02; 0x7f; 0x50; 0x3c; 0x9f; 0xa8;
    0x51; 0xa3; 0x40; 0x8f; 0x92; 0x9d; 0x38; 0xf5; 0xbc; 0xb6; 0xda; 0x21; 0x10; 0xff; 0xf3; 0xd2;
    0xcd; 0x0c; 0x13; 0xec; 0x5f; 0x97; 0x44; 0x17; 0xc4; 0xa7; 0x7e; 0x3d; 0x64; 0x5d; 0x19; 0x73;
    0x60; 0x81; 0x4f; 0xdc; 0x22; 0x2a; 0x90; 0x88; 0x46; 0xee; 0xb8; 0x14; 0xde; 0x5e; 0x0b; 0xdb;
    0xe0; 0x32; 0x3a; 0x0a; 0x49; 0x06; 0x24; 0x5c; 0xc2; 0xd3; 0xac; 0x62; 0x91; 0x95; 0xe4; 0x79;
    0xe7; 0xc8; 0x37; 0x6d; 0x8d; 0xd5; 0x4e; 0xa9; 0x6c; 0x56; 0xf4; 0xea; 0x65; 0x7a; 0xae; 0x08;
    0xba; 0x78; 0x25; 0x2e; 0x1c; 0xa6; 0xb4; 0xc6; 0xe8; 0xdd; 0x74; 0x1f; 0x4b; 0xbd; 0x8b; 0x8a;
    0x70; 0x3e; 0xb5; 0x66; 0x48; 0x03; 0xf6; 0x0e; 0x61; 0x35; 0x57; 0xb9; 0x86; 0xc1; 0x1d; 0x9e;
    0xe1; 0xf8; 0x98; 0x11; 0x69; 0xd9; 0x8e; 0x94; 0x9b; 0x1e; 0x87; 0xe9; 0xce; 0x55; 0x28; 0xdf;
    0x8c; 0xa1; 0x89; 0x0d; 0xbf; 0xe6; 0x42; 0x68; 0x41; 0x99; 0x2d; 0x0f; 0xb0; 0x54; 0xbb; 0x16 ].

Definition INV_SBOX : list Z :=
  [ 0x52; 0x09; 0x6a; 0xd5; 0x30; 0x36; 0xa5; 0x38; 0xbf; 0x40; 0xa3; 0x9e; 0x81; 0xf3; 0xd7; 0xfb;
    0x7c; 0xe3; 0x39; 0x82; 0x9b; 0x2f; 0xff; 0x87; 0x34; 0x8e; 0x43; 0x44; 0xc4; 0xde; 0xe9; 0xcb;
    0x54; 0x7b; 0x94; 0x32; 0xa6; 0xc2; 0x23; 0x3d; 0xee; 0x4c; 0x95; 0x0b; 0x42; 0xfa; 0xc3; 0x4e;
    0x08; 0x2e; 0xa1; 0x66; 0x28; 0xd9; 0x24; 0xb2; 0x76; 0x5b; 0xa2; 0x49; 0x6d; 0x8b; 0xd1; 0x25;
    0x72; 0xf8; 0xf6; 0x64; 0x86; 0x68; 0x98; 0x16; 0xd4; 0xa4; 0x5c; 0xcc; 0x5d; 0x65; 0xb6; 0x92;
    0x6c; 0x70; 0x48; 0x50; 0xfd; 0xed; 0xb9; 0xda; 0x5e; 0x15; 0x46; 0x57; 0xa7; 0x8d; 0x9d; 0x84;
    0x90; 0xd8; 0xab; 0x00; 0x8c; 0xbc; 0xd3; 0x0a; 0xf7; 0xe4; 0x58; 0x05; 0xb8; 0xb3; 0x45; 0x06;
    0xd0; 0x2c; 0x1e; 0x8f; 0xca; 0x3f; 0x0f; 0x02; 0xc1; 0xaf; 0xbd; 0x03; 0x01; 0x13; 0x8a; 0x6b;
    0x3a; 0x91; 0x11; 0x41; 0x4f; 0x67; 0xdc; 0xea; 0x97; 0xf2; 0xcf; 0xce; 0xf0; 0xb4; 0xe6; 0x73;
    0x96; 0xac; 0x74; 0x22; 0xe7; 0xad; 0x35; 0x85; 0xe2; 0xf9; 0x37; 0xe8; 0x1c; 0x75; 0xdf; 0x6e;
    0x47; 0xf1; 0x1a; 0x71; 0x1d; 0x29; 0xc5; 0x89; 0x6f; 0xb7; 0x62; 0x0e; 0xaa; 0x18; 0xbe; 0x1b;
    0xfc; 0x56; 0x3e; 0x4b; 0xc6; 0xd2; 0x79; 0x20; 0x9a; 0xdb; 0xc0; 0xfe; 0x78; 0xcd; 0x5a; 0xf4;
    0x1f; 0xdd; 0xa8; 0x33; 0x88; 0x07; 0xc7; 0x31; 0xb1; 0x12; 0x10; 0x59; 0x27; 0x80; 0xec; 0x5f;
    0x60; 0x51; 0x7f; 0xa9; 0x19; 0xb5; 0x4a; 0x0d; 0x2d; 0xe5; 0x7a; 0x9f; 0x93; 0xc9; 0x9c; 0xef;
    0xa0; 0xe0; 0x3b; 0x4d; 0xae; 0x2a; 0xf5; 0xb0; 0xc8; 0xeb; 0xbb; 0x3c; 0x83; 0x53; 0x99; 0x61;
    0x17; 0x2b; 0x04; 0x7e; 0xba; 0x77; 0xd6; 0x26; 0xe1; 0x69; 0x14; 0x63; 0x55; 0x21; 0x0c; 0x7d ].

Definition RCON : list Z :=
  [ 0x01; 0x02; 0x04; 0x08; 0x10; 0x20; 0x40; 0x80; 0x1b; 0x36 ].

Definition block : Type := list Z.

(** [xorBlocks(dest, src)]: [dest[i] ^= src[i]] for the 16 positions. *)
Definition xorBlocks (dest src : block) : block :=
  map (fun i => Z.lxor (at_ dest i) (at_ src i)) (seq 0 BLOCK_SIZE).

(** One column of the "MixColumns" loop body of [encryptBlock]; the same
    body is used by [decryptBlock]. *)
Definition mixColumn (b : block) (i : nat) : block :=
  let s0 := at_ b (i * 4) in
  let s1 := at_ b (i * 4 + 1) in
  let s2 := at_ b (i * 4 + 2) in
  let s3 := at_ b (i * 4 + 3) in
  let sh z := Z.shiftl z 1 in
  let b := <[(i * 4)%nat :=
      u8 (Z.lxor (Z.lxor (Z.lxor (Z.lxor (sh s0) (sh s1)) s1) s2) s3)]> b in
  let b := <[(i * 4 + 1)%nat :=
      u8 (Z.lxor (Z.lxor (Z.lxor (Z.lxor s0 (sh s1)) (sh s2)) s2) s3)]> b in
  let b := <[(i * 4 + 2)%nat :=
      u8 (Z.lxor (Z.lxor (Z.lxor (Z.lxor s0 s1) (sh s2)) (sh s3)) s3)]> b in
  let b := <[(i * 4 + 3)%nat :=
      u8 (Z.lxor (Z.lxor (Z.lxor (Z.lxor (sh s0) s0) s1) s2) (sh s3))]> b in
  b.

Definition mixColumns (b : block) : block :=
  fold_left mixColumn (seq 0 4) b.

(** The three [std::rotate] calls of [encryptBlock], in source order. *)
Definition shiftRows (b : block) : block :=
  rotate 12 15 16 (rotate 8 10 12 (rotate 4 5 8 b)).

(** The three [std::rotate] calls of [decryptBlock], in source order. *)
Definition invShiftRows (b : block) : block :=
  rotate 4 5 8 (rotate 8 10 12 (rotate 12 15 16 b)).

Definition generateRoundKey (key : block) (round : nat) : block :=
  let rk := rotate 12 13 16 key in
  let rk := fold_left (fun rk i => <[i := at_ SBOX (Z.to_nat (at_ rk i))]> rk)
                      (seq 12 4) rk in
  let rk := <[0%nat := Z.lxor (at_ rk 0) (at_ RCON round)]> rk in
  fold_left (fun rk i => <[(i + 4)%nat := Z.lxor (at_ rk i) (at_ rk (i + 4))]> rk)
            (seq 0 12) rk.

Definition encryptRound (key : block) (b : block) (round : nat) : block :=
  let b := map (fun byte => at_ SBOX (Z.to_nat byte)) b in
  let b := shiftRows b in
  let b := if (round <? 9)%nat then mixColumns b else b in
  xorBlocks b (generateRoundKey key round).

Definition encryptBlock (b key : block) : block :=
  fold_left (encryptRound key) (seq 0 10) (xorBlocks b key).

Definition decryptRound (key : block) (b : block) (round : nat) : block :=
  let b := invShiftRows b in
  let b := map (fun byte => at_ INV_SBOX (Z.to_nat byte)) b in
  let b := xorBlocks b (generateRoundKey key round) in
  if (round <? 9)%nat then mixColumns b else b.

Definition decryptBlock (b key : block) : block :=
  fold_left (decryptRound key) (seq 0 10) (xorBlocks b key).

Definition validateKey (key : list Z) : bool :=
  (size key =? KEY_SIZE_128 / 8) || (size key =? KEY_SIZE_256 / 8).

Definition validateIV (iv : list Z) : bool :=
  (length iv =? IV_SIZE)%nat.

Definition padBlock (data : list Z) : list Z :=
  let paddingSize := (BLOCK_SIZE - (length data mod BLOCK_SIZE))%nat in
  data ++ repeat (u8 (Z.of_nat paddingSize)) paddingSize.

(** [unpadBlock]; its callers pass a whole number of blocks, so that
    [paddingSize], at most 16, never exceeds [data.size()]. *)
Definition unpadBlock (data : list Z) : result (list Z) :=
  match last data with
  | None => Ok data
  | Some paddingSize =>
      if (Z.of_nat BLOCK_SIZE <? paddingSize) || (paddingSize =? 0)
      then Throw runtime_error
      else Ok (take (length data - Z.to_nat paddingSize) data)
  end.

(** The loop [for (i = 0; i < data.size(); i += BLOCK_SIZE)] reads the
    successive 16-byte blocks of [data]. *)
Fixpoint blocksOf (n : nat) (data : list Z) : list block :=
  match n with
  | O => []
  | S n => take BLOCK_SIZE data :: blocksOf n (drop BLOCK_SIZE data)
  end.

Definition blocks (data : list Z) : list block :=
  blocksOf (length data / BLOCK_SIZE) data.

Definition keyArray (key : list Z) : block := take BLOCK_SIZE key.

Definition encryptECB (data key : list Z) : list Z :=
  concat (map (fun b => encryptBlock b (keyArray key)) (blocks (padBlock data))).

Definition decryptECB (data key : list Z) : result (list Z) :=
  if negb (length data mod BLOCK_SIZE =? 0)%nat then Throw invalid_argument
  else unpadBlock
         (concat (map (fun b => decryptBlock b (keyArray key)) (blocks data))).

(** [std::array<uint8_t, BLOCK_SIZE> previousBlock;] followed by
    [std::copy(iv.begin(), iv.end(), previousBlock.begin())]: the 12 bytes of
    the IV overwrite the head of the array, whose last 4 bytes keep the
    indeterminate contents [uninit] the array was created with. *)
Definition initPreviousBlock (uninit : block) (iv : list Z) : block :=
  iv ++ drop (length iv) uninit.

Fixpoint encryptCBC_loop (key previousBlock : block) (bs : list block) : list Z :=
  match bs with
  | [] => []
  | b :: bs =>
      let b := encryptBlock (xorBlocks b previousBlock) key in
      b ++ encryptCBC_loop key b bs
  end.

Definition encryptCBC (uninit : block) (data key iv : list Z) : list Z :=
  encryptCBC_loop (keyArray key) (initPreviousBlock uninit iv)
                  (blocks (padBlock data)).

Fixpoint decryptCBC_loop (key previousBlock : block) (bs : list block) : list Z :=
  match bs with
  | [] => []
  | currentBlock :: bs =>
      xorBlocks (decryptBlock currentBlock key) previousBlock
        ++ decryptCBC_loop key currentBlock bs
  end.

Definition decryptCBC (uninit : block) (data key iv : list Z) : result (list Z) :=
  if negb (length data mod BLOCK_SIZE =? 0)%nat then Throw invalid_argument
  else unpadBlock
         (decryptCBC_loop (keyArray key) (initPreviousBlock uninit iv) (blocks data)).

(** [encryptGCM] appends the local array [tag], which is never written:
    its 16 bytes are the indeterminate contents [tag]. *)
Definition encryptGCM (tag : list Z) (uninit : block) (data key iv : list Z)
  : list Z :=
  encryptCBC uninit data key iv ++ take GCM_TAG_SIZE tag.

(** [decryptGCM] copies the last 16 bytes into [receivedTag], declares
    [computedTag], compares nothing, and decrypts the rest. *)
Definition decryptGCM (uninit : block) (data key iv : list Z) : result (list Z) :=
  if (length data <? GCM_TAG_SIZE)%nat then Throw invalid_argument
  else decryptCBC uninit (take (length data - GCM_TAG_SIZE) data) key iv.

(** The indeterminate contents of the local arrays the modes read. *)
Record Indeterminate : Type := {
  previousBlock0 : block;   (* [previousBlock] of encryptCBC / decryptCBC *)
  tag0 : list Z             (* [tag] of encryptGCM *)
}.

Definition encrypt (u : Indeterminate) (data key iv : list Z) (mode : Mode)
  : result (list Z) :=
  if negb (validateKey key) || negb (validateIV iv) then Throw invalid_argument
  else match mode with
       | ECB => Ok (encryptECB data key)
       | CBC => Ok (encryptCBC (previousBlock0 u) data key iv)
       | GCM => Ok (encryptGCM (tag0 u) (previousBlock0 u) data key iv)
       end.

Definition decrypt (u : Indeterminate) (encryptedData key iv : list Z) (mode : Mode)
  : result (list Z) :=
  if negb (validateKey key) || negb (validateIV iv) then Throw invalid_argument
  else match mode with
       | ECB => decryptECB encryptedData key
       | CBC => decryptCBC (previousBlock0 u) encryptedData key iv
       | GCM => decryptGCM (previousBlock0 u) encryptedData key iv
       end.

(** [Crypto::hash]: eight 32-bit words, each multiplied through the input
    bytes with its own constant, written out big-endian. *)
Definition hash_constants : list Z :=
  [ 0x6a09e667; 0xbb67ae85; 0x3c6ef372; 0xa54ff53a;
    0x510e527f; 0x9b05688c; 0x1f83d9ab; 0x5be0cd19 ].

(** One turn of the loop over the input: [h = (h + data[i]) * constant]
    for each of the eight words. *)
Definition hash_step (h : list Z) (byte : Z) : list Z :=
  map (fun k : nat => u32 (u32 (at_ h k + byte) * at_ hash_constants k)) (seq 0 8).

(** The four bytes [(h >> (24 - i * 8)) & 0xFF], i = 0..3, of one word. *)
Definition hash_word_bytes (h : Z) : list Z :=
  map (fun i : nat => u8 (Z.land (Z.shiftr h (24 - Z.of_nat i * 8)) 0xFF)) (seq 0 4).

Definition hash (data : list Z) : list Z :=
  concat (map hash_word_bytes (fold_left hash_step data hash_constants)).

(** [sign]: [hash(data + key)] *)
Definition sign (data key : list Z) : list Z := hash (data ++ key).

Definition verify (data signature key : list Z) : bool :=
  bool_decide (sign data key = signature).

End Crypto.

(** [*reinterpret_cast<const uint32_t*>(v.data())] on a little-endian host. *)
Definition le32 (v : list Z) : Z :=
  at_ v 0 + 2 ^ 8 * at_ v 1 + 2 ^ 16 * at_ v 2 + 2 ^ 24 * at_ v 3.

(** ** Compression.cpp *)

Module Compression.

Inductive Algorithm : Type := NONE | LZ4 | ZSTD.

Definition MIN_COMPRESSION_SIZE : nat := 64.

(** The entry points of lz4 and zstd that [Compression] calls.  A compressor
    yields the bytes it wrote, or [None] when its return value is the failure
    case tested by the caller ([<= 0] for LZ4, [ZSTD_isError] for zstd); a
    decompressor yields the contents of the destination buffer of the given
    size.  [ratio_lt_threshold c d] is the single-precision test
    [static_cast<float>(c) / d < COMPRESSION_RATIO_THRESHOLD]. *)
Record Library : Type := {
  LZ4_compress_default : list Z -> option (list Z);
  ZSTD_compress : list Z -> option (list Z);
  LZ4_decompress_safe : list Z -> Z -> option (list Z);
  ZSTD_getFrameContentSize : list Z -> option Z;
  ZSTD_decompress : list Z -> Z -> option (list Z);
  ratio_lt_threshold : Z -> Z -> bool
}.

Section WithLibrary.

Variable lib : Library.

(** [compress] and [shouldCompress] call each other; [fuel] bounds the depth
    of the call stack and [None] means the bound was reached. *)
Fixpoint compress (fuel : nat) (data : list Z) (algorithm : Algorithm)
  {struct fuel} : option (list Z) :=
  match fuel with
  | O => None
  | S fuel =>
      if bool_decide (data = []) then Some data
      else
        match shouldCompress fuel data algorithm with
        | None => None
        | Some false => Some data
        | Some true =>
            match algorithm with
            | LZ4 =>
                match LZ4_compress_default lib data with
                | Some compressed => Some compressed
                | None => Some data
                end
            | ZSTD =>
                match ZSTD_compress lib data with
                | Some compressed => Some compressed
                | None => Some data
                end
            | NONE => Some data
            end
        end
  end
with shouldCompress (fuel : nat) (data : list Z) (algorithm : Algorithm)
  {struct fuel} : option bool :=
  match fuel with
  | O => None
  | S fuel =>
      if (length data <? MIN_COMPRESSION_SIZE)%nat then Some false
      else
        match compress fuel data algorithm with
        | None => None
        | Some compressed =>
            Some (ratio_lt_threshold lib (size compressed) (size data))
        end
  end.

Definition decompress (compressedData : list Z) (algorithm : Algorithm) : list Z :=
  if bool_decide (compressedData = []) then compressedData
  else
    match algorithm with
    | LZ4 =>
        if (length compressedData <? 4)%nat then compressedData
        else
          let originalSize := le32 compressedData in
          match LZ4_decompress_safe lib (drop 4 compressedData) originalSize with
          | Some decompressed => decompressed
          | None => compressedData
          end
    | ZSTD =>
        match ZSTD_getFrameContentSize lib compressedData with
        | None => compressedData
        | Some originalSize =>
            match ZSTD_decompress lib compressedData originalSize with
            | Some decompressed => decompressed
            | None => compressedData
            end
        end
    | NONE => compressedData
    end.

End WithLibrary.

End Compression.

(** [std::vector<uint8_t> v(4); *reinterpret_cast<uint32_t*>(v.data()) = z] *)
Definition bytes_le32 (z : Z) : list Z :=
  [u8 z; u8 (z / 2 ^ 8); u8 (z / 2 ^ 16); u8 (z / 2 ^ 24)].

(** [std::chrono::duration_cast<std::chrono::seconds>(d).count()] of a
    [steady_clock] duration [d] in nanoseconds: truncation toward zero. *)
Definition duration_cast_seconds (d : Z) : Z := Z.quot d 1000000000.

Definition milliseconds (n : Z) : Z := n * 1000000.

Inductive PacketReliability : Type :=
  | UNRELIABLE
  | UNRELIABLE_SEQUENCED
  | RELIABLE
  | RELIABLE_SEQUENCED
  | RELIABLE_ORDERED.

#[global] Instance PacketReliability_eq_dec : EqDecision PacketReliability.
Proof. solve_decision. Defined.

(** ** Single precision

    A [float] is the rational it denotes.  [Float.round] is rounding to the
    nearest binary32 number, ties to even, on the normal range of binary32
    (magnitudes from 2^-126 up to 2^128); a [uint32_t] and the quotient of
    two non-zero ones lie well inside it. *)

Module Float.

Definition pow2 (k : Z) : Q :=
  if 0 <=? k then inject_Z (2 ^ k) else (1 / inject_Z (2 ^ (- k)))%Q.

(** The integer nearest to [q], the even one of two equally near. *)
Definition nearest_even (q : Q) : Z :=
  let n := Qnum q in
  let d := Z.pos (Qden q) in
  let f := n / d in
  let twice_rest := 2 * (n mod d) in
  if twice_rest <? d then f
  else if d <? twice_rest then f + 1
  else if Z.even f then f else f + 1.

(** The [k] with [2^k <= q < 2^(k+1)], for positive [q]. *)
Definition floor_log2 (q : Q) : Z :=
  let k := Z.log2 (Qnum q) - Z.log2 (Z.pos (Qden q)) in
  if Qle_bool (pow2 k) q then k else k - 1.

(** A positive [q] rounded to 24 significant bits. *)
Definition round_positive (q : Q) : Q :=
  let e := floor_log2 q - 23 in
  Qred (inject_Z (nearest_even (q / pow2 e)) * pow2 e).

Definition round (q : Q) : Q :=
  match Qnum q with
  | Z0 => 0%Q
  | Z.pos _ => round_positive q
  | Z.neg _ => Qred (- round_positive (- q))
  end.

(** [static_cast<float>] of an integer *)
Definition of_Z (z : Z) : Q := round (inject_Z z).

(** [a / b] on two [float]s *)
Definition div (a b : Q) : Q := round (a / b).

End Float.

(** ** Connection.hpp, Connection.cpp *)

Module Connection.

Record Packet : Type := {
  sequenceNumber : Z;
  timestamp : Z;
  reliability : PacketReliability;
  data : list Z;
  isAcknowledged : bool;
  lastResendTime : Z
}.

(** [float] members hold the rational their single-precision value
    denotes; [rtt_] is set by the constructor and by nothing else. *)
Record t : Type := {
  unacknowledgedPackets_ : gmap Z Packet;
  outgoingPackets_ : list Packet;
  nextSequenceNumber_ : Z;
  maxPacketSize_ : Z;
  connected_ : bool;
  rtt_ : Q;
  packetLoss_ : Q;
  packetsSent_ : Z;
  packetsReceived_ : Z;
  packetsLost_ : Z;
  lastStatsUpdate_ : Z
}.

(** [RESEND_TIMEOUT = 0.1f  // 100ms]: the single-precision number nearest
    to one tenth. *)
Definition RESEND_TIMEOUT : Q := (13421773 # 134217728)%Q.
Definition MAX_RESEND_ATTEMPTS : Z := 5.

(** [Connection::Connection(maxPacketSize)] constructed at instant [now]. *)
Definition new (maxPacketSize now : Z) : t := {|
  unacknowledgedPackets_ := ∅;
  outgoingPackets_ := [];
  nextSequenceNumber_ := 0;
  maxPacketSize_ := maxPacketSize;
  connected_ := false;
  rtt_ := 0%Q;
  packetLoss_ := 0%Q;
  packetsSent_ := 0;
  packetsReceived_ := 0;
  packetsLost_ := 0;
  lastStatsUpdate_ := now
|}.

Definition set_tables (c : t) (unacked : gmap Z Packet) (outgoing : list Packet) : t := {|
  unacknowledgedPackets_ := unacked;
  outgoingPackets_ := outgoing;
  nextSequenceNumber_ := nextSequenceNumber_ c;
  maxPacketSize_ := maxPacketSize_ c;
  connected_ := connected_ c;
  rtt_ := rtt_ c;
  packetLoss_ := packetLoss_ c;
  packetsSent_ := packetsSent_ c;
  packetsReceived_ := packetsReceived_ c;
  packetsLost_ := packetsLost_ c;
  lastStatsUpdate_ := lastStatsUpdate_ c
|}.

Definition set_lastResendTime (p : Packet) (now : Z) : Packet := {|
  sequenceNumber := sequenceNumber p;
  timestamp := timestamp p;
  reliability := reliability p;
  data := data p;
  isAcknowledged := isAcknowledged p;
  lastResendTime := now
|}.

(** [queuePacket]; [epoch_ms] is the [system_clock] reading in milliseconds
    and [now] the [steady_clock] reading. *)
Definition queuePacket (c : t) (epoch_ms now : Z) (payload : list Z)
    (r : PacketReliability) : t :=
  let packet := {|
    sequenceNumber := nextSequenceNumber_ c;
    timestamp := u32 epoch_ms;
    reliability := r;
    data := payload;
    isAcknowledged := false;
    lastResendTime := now
  |} in
  let '(unacked, outgoing) :=
    if decide (r = UNRELIABLE)
    then (unacknowledgedPackets_ c, outgoingPackets_ c ++ [packet])
    else (<[sequenceNumber packet := packet]> (unacknowledgedPackets_ c),
          outgoingPackets_ c) in
  {|
    unacknowledgedPackets_ := unacked;
    outgoingPackets_ := outgoing;
    nextSequenceNumber_ := u32 (nextSequenceNumber_ c + 1);
    maxPacketSize_ := maxPacketSize_ c;
    connected_ := connected_ c;
    rtt_ := rtt_ c;
    packetLoss_ := packetLoss_ c;
    packetsSent_ := packetsSent_ c;
    packetsReceived_ := packetsReceived_ c;
    packetsLost_ := packetsLost_ c;
    lastStatsUpdate_ := lastStatsUpdate_ c
  |}.

Definition handleAcknowledgment (c : t) (sequenceNumber : Z) : t :=
  match unacknowledgedPackets_ c !! sequenceNumber with
  | Some _ => set_tables c (delete sequenceNumber (unacknowledgedPackets_ c))
                           (outgoingPackets_ c)
  | None => c
  end.

(** [timeSinceLastResend] is a whole number of seconds; the comparison with
    [RESEND_TIMEOUT] converts it to [float], exactly for every count below
    2^24 and monotonically above. *)
Definition shouldResendPacket (packet : Packet) (now : Z) : bool :=
  if isAcknowledged packet then false
  else
    let timeSinceLastResend := duration_cast_seconds (now - lastResendTime packet) in
    Qle_bool RESEND_TIMEOUT (inject_Z timeSinceLastResend).

(** The loop over [unacknowledgedPackets_]: an entry for which
    [shouldResendPacket] holds gets [lastResendTime = now] and stays, every
    other entry is erased.  The clock is read once per pass. *)
Definition resendUnacknowledgedPackets (c : t) (now : Z) : t :=
  set_tables c
    ((fun p => set_lastResendTime p now)
       <$> filter (fun kv => shouldResendPacket kv.2 now = true)
                  (unacknowledgedPackets_ c))
    (outgoingPackets_ c).

(** [packetLoss_ = static_cast<float>(packetsLost_) / packetsSent_]: the
    second operand is converted to [float] as well, and the quotient is
    rounded to single precision. *)
Definition updateStatistics (c : t) : t :=
  if 0 <? packetsSent_ c then {|
    unacknowledgedPackets_ := unacknowledgedPackets_ c;
    outgoingPackets_ := outgoingPackets_ c;
    nextSequenceNumber_ := nextSequenceNumber_ c;
    maxPacketSize_ := maxPacketSize_ c;
    connected_ := connected_ c;
    rtt_ := rtt_ c;
    packetLoss_ := Float.div (Float.of_Z (packetsLost_ c))
                             (Float.of_Z (packetsSent_ c));
    packetsSent_ := packetsSent_ c;
    packetsReceived_ := packetsReceived_ c;
    packetsLost_ := packetsLost_ c;
    lastStatsUpdate_ := lastStatsUpdate_ c
  |} else c.

Definition set_lastStatsUpdate (c : t) (now : Z) : t := {|
  unacknowledgedPackets_ := unacknowledgedPackets_ c;
  outgoingPackets_ := outgoingPackets_ c;
  nextSequenceNumber_ := nextSequenceNumber_ c;
  maxPacketSize_ := maxPacketSize_ c;
  connected_ := connected_ c;
  rtt_ := rtt_ c;
  packetLoss_ := packetLoss_ c;
  packetsSent_ := packetsSent_ c;
  packetsReceived_ := packetsReceived_ c;
  packetsLost_ := packetsLost_ c;
  lastStatsUpdate_ := now
|}.

Definition update (c : t) (now : Z) : t :=
  let c :=
    if 1 <=? duration_cast_seconds (now - lastStatsUpdate_ c)
    then set_lastStatsUpdate (updateStatistics c) now
    else c in
  resendUnacknowledgedPackets c now.

Definition incr_packetsReceived (c : t) : t := {|
  unacknowledgedPackets_ := unacknowledgedPackets_ c;
  outgoingPackets_ := outgoingPackets_ c;
  nextSequenceNumber_ := nextSequenceNumber_ c;
  maxPacketSize_ := maxPacketSize_ c;
  connected_ := connected_ c;
  rtt_ := rtt_ c;
  packetLoss_ := packetLoss_ c;
  packetsSent_ := packetsSent_ c;
  packetsReceived_ := u32 (packetsReceived_ c + 1);
  packetsLost_ := packetsLost_ c;
  lastStatsUpdate_ := lastStatsUpdate_ c
|}.

Definition processIncomingPacket (c : t) (epoch_ms now : Z) (payload : list Z)
  : bool * t :=
  if (length payload <? 4)%nat then (false, c)
  else
    let sequenceNumber := le32 payload in
    let ackData := bytes_le32 sequenceNumber in
    let c := queuePacket c epoch_ms now ackData UNRELIABLE in
    let c := incr_packetsReceived c in
    if (length payload =? 4)%nat
    then (true, handleAcknowledgment c sequenceNumber)
    else (true, c).

(** [getPacketsToSend]: the entries due for resend are copied out, then
    refreshed, in the iteration order of the table; the outgoing queue is
    drained after them. *)
Definition getPacketsToSend (c : t) (now : Z) : list Packet * t :=
  let due := filter (fun kv => shouldResendPacket kv.2 now = true)
                    (unacknowledgedPackets_ c) in
  let unacked :=
    (fun p => if shouldResendPacket p now then set_lastResendTime p now else p)
      <$> unacknowledgedPackets_ c in
  ((map_to_list due).*2 ++ outgoingPackets_ c, set_tables c unacked []).

(** [setConnected] *)
Definition setConnected (c : t) (connected : bool) : t := {|
  unacknowledgedPackets_ := unacknowledgedPackets_ c;
  outgoingPackets_ := outgoingPackets_ c;
  nextSequenceNumber_ := nextSequenceNumber_ c;
  maxPacketSize_ := maxPacketSize_ c;
  connected_ := connected;
  rtt_ := rtt_ c;
  packetLoss_ := packetLoss_ c;
  packetsSent_ := packetsSent_ c;
  packetsReceived_ := packetsReceived_ c;
  packetsLost_ := packetsLost_ c;
  lastStatsUpdate_ := lastStatsUpdate_ c
|}.

(** The connections the public interface can produce: constructed, then
    driven by any sequence of the public member functions. *)
Inductive reachable : t -> Prop :=
  | reachable_new maxPacketSize now : reachable (new maxPacketSize now)
  | reachable_setConnected c connected :
      reachable c -> reachable (setConnected c connected)
  | reachable_queuePacket c epoch_ms now payload r :
      reachable c -> reachable (queuePacket c epoch_ms now payload r)
  | reachable_processIncomingPacket c epoch_ms now payload :
      reachable c -> reachable (processIncomingPacket c epoch_ms now payload).2
  | reachable_getPacketsToSend c now :
      reachable c -> reachable (getPacketsToSend c now).2
  | reachable_update c now : reachable c -> reachable (update c now).

(** Each table entry sits under its own sequence number, is a reliable
    packet and is not marked acknowledged; the outgoing queue holds
    unreliable packets only; the next sequence number is a [uint32_t]. *)
Definition tables_consistent (c : t) : Prop :=
  (∀ seq packet,
     unacknowledgedPackets_ c !! seq = Some packet ->
     sequenceNumber packet = seq
     ∧ reliability packet ≠ UNRELIABLE
     ∧ isAcknowledged packet = false)
  ∧ Forall (fun packet => reliability packet = UNRELIABLE
                          ∧ isAcknowledged packet = false)
           (outgoingPackets_ c)
  ∧ 0 <= nextSequenceNumber_ c < 2 ^ 32.

End Connection.

(** ** PacketPriority.hpp, PacketScheduler *)

Module PacketScheduler.

Inductive PacketPriority : Type := CRITICAL | HIGH | MEDIUM | LOW | BACKGROUND.

(** [static_cast<int>(priority)] *)
Definition priority_int (p : PacketPriority) : Z :=
  match p with
  | CRITICAL => 0
  | HIGH => 1
  | MEDIUM => 2
  | LOW => 3
  | BACKGROUND => 4
  end.

Inductive QoSLevel : Type :=
  | ULTRA_LOW_LATENCY
  | LOW_LATENCY
  | BALANCED
  | HIGH_THROUGHPUT
  | QOS_RELIABLE.

Record PacketMetadata : Type := {
  priority : PacketPriority;
  qos : QoSLevel;
  deadline : Z;
  size_ : Z;
  sequenceNumber : Z;
  requiresAck : bool;
  bandwidthLimit : Q
}.

Record PrioritizedPacket : Type := {
  data_ : list Z;
  metadata_ : PacketMetadata
}.

(** [PrioritizedPacket::operator<] *)
Definition lt (a b : PrioritizedPacket) : bool :=
  if negb (priority_int (priority (metadata_ a))
           =? priority_int (priority (metadata_ b)))
  then priority_int (priority (metadata_ a))
       >? priority_int (priority (metadata_ b))
  else deadline (metadata_ a) >? deadline (metadata_ b).

(** [std::priority_queue<PrioritizedPacket>]: the contents, in the order of
    the [emplace] calls.  [top()] is an element that is not [<] any other;
    which one of several such elements it is, the container does not say. *)
Definition priority_queue : Type := list PrioritizedPacket.

Definition is_top (q : priority_queue) (p : PrioritizedPacket) : Prop :=
  p ∈ q ∧ ∀ p', p' ∈ q → lt p p' = false.

(** [top()] followed by [pop()]: the element and the remaining contents. *)
Inductive pops : priority_queue -> PrioritizedPacket -> priority_queue -> Prop :=
  | pops_at (l1 l2 : priority_queue) (p : PrioritizedPacket) :
      is_top (l1 ++ p :: l2) p -> pops (l1 ++ p :: l2) p (l1 ++ l2).

(** One [top()]/[pop()] that computes: of the elements not [<] any other,
    the earliest enqueued. *)
Fixpoint pop (q : priority_queue) : option (PrioritizedPacket * priority_queue) :=
  match q with
  | [] => None
  | p :: q' =>
      match pop q' with
      | None => Some (p, [])
      | Some (m, rest) => if lt p m then Some (m, p :: rest) else Some (p, q')
      end
  end.

Record t : Type := {
  packetQueue_ : priority_queue;
  maxQueueSize_ : Z;
  currentBandwidth_ : Z;
  maxBandwidth_ : Z
}.

(** [PacketScheduler(maxQueueSize = 1000)] *)
Definition new (maxQueueSize : Z) : t := {|
  packetQueue_ := [];
  maxQueueSize_ := maxQueueSize;
  currentBandwidth_ := 0;
  maxBandwidth_ := 0
|}.

Definition set_packetQueue (s : t) (q : priority_queue) : t := {|
  packetQueue_ := q;
  maxQueueSize_ := maxQueueSize_ s;
  currentBandwidth_ := currentBandwidth_ s;
  maxBandwidth_ := maxBandwidth_ s
|}.

Definition enqueuePacket (s : t) (data : list Z) (metadata : PacketMetadata)
  : bool * t :=
  if maxQueueSize_ s <=? size (packetQueue_ s) then (false, s)
  else (true, set_packetQueue s
                (packetQueue_ s ++ [{| data_ := data; metadata_ := metadata |}])).

(** [dequeuePacket].  The call holds [queueMutex_], a [std::mutex], through
    its [lock_guard] until it returns.  When the packet on top has expired,
    it is popped and [dequeuePacket] is called again from inside the guarded
    region: that call begins by locking the mutex its own thread already
    holds and gets no further, so the outer call never returns.  The second
    component is the scheduler as the call leaves it, returned or blocked.
    The clock is read once. *)
Definition dequeuePacket (s : t) (now : Z)
  : result (option PrioritizedPacket) * t :=
  match pop (packetQueue_ s) with
  | None => (Ok None, s)
  | Some (packet, rest) =>
      if deadline (metadata_ packet) <? now
      then (NoReturn, set_packetQueue s rest)
      else (Ok (Some packet), set_packetQueue s rest)
  end.

(** The same call for any [top()] the container may pick. *)
Inductive dequeues (now : Z) :
    priority_queue -> result (option PrioritizedPacket) -> priority_queue -> Prop :=
  | dequeues_empty : dequeues now [] (Ok None) []
  | dequeues_expired q packet rest :
      pops q packet rest ->
      deadline (metadata_ packet) < now ->
      dequeues now q NoReturn rest
  | dequeues_top q packet rest :
      pops q packet rest ->
      ¬ deadline (metadata_ packet) < now ->
      dequeues now q (Ok (Some packet)) rest.

End PacketScheduler.

(** ** NetworkManager.hpp, NetworkManager.cpp *)

Module NetworkManager.

Record NetworkConfig : Type := {
  enableCompression : bool;
  compressionAlgorithm : Compression.Algorithm;
  enableEncryption : bool;
  encryptionMode : Crypto.Mode;
  encryptionKey : list Z;
  fragmentSize : Z;
  fragmentTimeout : Z
}.

Record NetworkMessage : Type := {
  data : list Z;
  timestamp : Z;
  reliability : PacketReliability;
  messageId : Z;
  fragmentIndex : Z;
  totalFragments : Z;
  isFragment : bool
}.

Record FragmentInfo : Type := {
  fragments : list NetworkMessage;
  fi_timestamp : Z;
  fi_totalFragments : Z;
  receivedFragments : Z
}.

(** The members of [NetworkManager] the send and receive paths touch.
    [messageCallback_] records whether a callback is installed and
    [callbackCalls] the messages it was called with; [socket] is the list of
    packets that reached the place of the socket send. *)
Record t : Type := {
  config_ : NetworkConfig;
  running_ : bool;
  messageCallback_ : bool;
  callbackCalls : list NetworkMessage;
  messageQueue_ : list NetworkMessage;
  fragmentMap_ : gmap Z FragmentInfo;
  nextMessageId_ : Z;
  bytesSent_ : Z;
  lastActivity_ : gmap Z Z;
  socket : list (list Z)
}.

(** [NetworkManager()] followed by [initialize(config)] *)
Definition new (config : NetworkConfig) : t := {|
  config_ := config;
  running_ := false;
  messageCallback_ := false;
  callbackCalls := [];
  messageQueue_ := [];
  fragmentMap_ := ∅;
  nextMessageId_ := 0;
  bytesSent_ := 0;
  lastActivity_ := ∅;
  socket := []
|}.

Definition set_running (m : t) (b : bool) : t := {|
  config_ := config_ m; running_ := b;
  messageCallback_ := messageCallback_ m; callbackCalls := callbackCalls m;
  messageQueue_ := messageQueue_ m; fragmentMap_ := fragmentMap_ m;
  nextMessageId_ := nextMessageId_ m; bytesSent_ := bytesSent_ m;
  lastActivity_ := lastActivity_ m; socket := socket m
|}.

Definition setMessageCallback (m : t) : t := {|
  config_ := config_ m; running_ := running_ m;
  messageCallback_ := true; callbackCalls := callbackCalls m;
  messageQueue_ := messageQueue_ m; fragmentMap_ := fragmentMap_ m;
  nextMessageId_ := nextMessageId_ m; bytesSent_ := bytesSent_ m;
  lastActivity_ := lastActivity_ m; socket := socket m
|}.

Definition set_fragmentMap (m : t) (fm : gmap Z FragmentInfo) : t := {|
  config_ := config_ m; running_ := running_ m;
  messageCallback_ := messageCallback_ m; callbackCalls := callbackCalls m;
  messageQueue_ := messageQueue_ m; fragmentMap_ := fm;
  nextMessageId_ := nextMessageId_ m; bytesSent_ := bytesSent_ m;
  lastActivity_ := lastActivity_ m; socket := socket m
|}.

Definition set_nextMessageId (m : t) (id : Z) : t := {|
  config_ := config_ m; running_ := running_ m;
  messageCallback_ := messageCallback_ m; callbackCalls := callbackCalls m;
  messageQueue_ := messageQueue_ m; fragmentMap_ := fragmentMap_ m;
  nextMessageId_ := id; bytesSent_ := bytesSent_ m;
  lastActivity_ := lastActivity_ m; socket := socket m
|}.

Definition set_messageId (msg : NetworkMessage) (id : Z) : NetworkMessage := {|
  data := data msg; timestamp := timestamp msg; reliability := reliability msg;
  messageId := id; fragmentIndex := fragmentIndex msg;
  totalFragments := totalFragments msg; isFragment := isFragment msg
|}.

(** What one packet draws from outside the program: the IV produced by
    [Crypto::generateIV] and the contents of the arrays left unwritten. *)
Record Draw : Type := {
  iv : list Z;
  indeterminate : Crypto.Indeterminate
}.

Section WithLibrary.

Variable lib : Compression.Library.

(** *** Framing *)

Definition processOutgoingData (fuel : nat) (config : NetworkConfig) (d : Draw)
    (payload : list Z) : result (list Z) :=
  try! processedData :=
    if enableCompression config
    then match Compression.compress lib fuel payload (compressionAlgorithm config) with
         | Some compressed => Ok compressed
         | None => NoReturn
         end
    else Ok payload in
  if enableEncryption config then
    try! encrypted :=
      Crypto.encrypt (indeterminate d) processedData (encryptionKey config)
                     (iv d) (encryptionMode config) in
    Ok (iv d ++ encrypted)
  else Ok processedData.

(** The first half of [processIncomingData], up to the point where
    [processedData] is final; [None] stands for each early [return]. *)
Definition decodeIncoming (config : NetworkConfig) (u : Crypto.Indeterminate)
    (payload : list Z) : option (list Z) :=
  if bool_decide (payload = []) then None
  else
    let decrypted :=
      if enableEncryption config then
        if (length payload <? Crypto.IV_SIZE)%nat then None
        else
          let iv := take Crypto.IV_SIZE payload in
          let encryptedData := drop Crypto.IV_SIZE payload in
          match Crypto.decrypt u encryptedData (encryptionKey config) iv
                               (encryptionMode config) with
          | Ok processedData => Some processedData
          | _ => None
          end
      else Some payload in
    match decrypted with
    | None => None
    | Some processedData =>
        if enableCompression config
        then Some (Compression.decompress lib processedData
                                          (compressionAlgorithm config))
        else Some processedData
    end.

(** *** Fragmentation *)

(** [size_t] arithmetic *)
Definition u64 (z : Z) : Z := z mod 2 ^ 64.

(** [v.assign(src.begin() + start, src.begin() + end)] *)
Definition slice (src : list Z) (start end_ : Z) : list Z :=
  take (Z.to_nat (end_ - start)) (drop (Z.to_nat start) src).

Definition fragmentMessage (config : NetworkConfig) (message : NetworkMessage)
  : result (list NetworkMessage) :=
  if fragmentSize config =? 0 then Undefined
  else
    let totalFragments :=
      u64 (size (data message) + fragmentSize config - 1) / fragmentSize config in
    Ok (map
          (fun i : nat =>
             let start := u64 (Z.of_nat i * fragmentSize config) in
             let end_ := Z.min (u64 (start + fragmentSize config))
                               (size (data message)) in
             {| messageId := messageId message;
                fragmentIndex := u32 (Z.of_nat i);
                totalFragments := u32 totalFragments;
                isFragment := true;
                reliability := reliability message;
                timestamp := timestamp message;
                data := slice (data message) start end_ |})
          (seq 0 (Z.to_nat totalFragments))).

(** *** send *)

(** [static_cast<int>] of a [size_t] *)
Definition to_int (z : Z) : Z := (z + 2 ^ 31) mod 2 ^ 32 - 2 ^ 31.

(** [if (msg.messageId == 0) msg.messageId = ++nextMessageId_;] *)
Definition assignMessageId (m : t) (message : NetworkMessage) : t * NetworkMessage :=
  if messageId message =? 0
  then (set_nextMessageId m (u32 (nextMessageId_ m + 1)),
        set_messageId message (u32 (nextMessageId_ m + 1)))
  else (m, message).

(** The packet reaches the socket: it is appended to [socket] and counted. *)
Definition emit (m : t) (processedData : list Z) (bytesSent : Z) : t := {|
  config_ := config_ m; running_ := running_ m;
  messageCallback_ := messageCallback_ m; callbackCalls := callbackCalls m;
  messageQueue_ := messageQueue_ m; fragmentMap_ := fragmentMap_ m;
  nextMessageId_ := nextMessageId_ m;
  bytesSent_ := if 0 <? bytesSent then u64 (bytesSent_ m + bytesSent) else bytesSent_ m;
  lastActivity_ := lastActivity_ m;
  socket := socket m ++ [processedData]
|}.

(** The loop [for (const auto& fragment : fragments)] of [send], over the
    call [send1] it makes on each fragment. *)
Fixpoint sendEach (send1 : t -> NetworkMessage -> result (Z * t))
    (fragments : list NetworkMessage) (m : t) (totalSent : Z) : result (Z * t) :=
  match fragments with
  | [] => Ok (totalSent, m)
  | fragment :: fragments =>
      try! r := send1 m fragment in
      if r.1 <? 0 then Ok r
      else sendEach send1 fragments r.2 (totalSent + r.1)
  end.

(** [send] calls itself on every fragment.  [env k] is what the packet sent
    after [k] earlier ones draws; [fuel] bounds the call depth of [send] and
    of [Compression::compress]. *)
Fixpoint send (fuel : nat) (env : nat -> Draw) (m : t) (message : NetworkMessage)
  {struct fuel} : result (Z * t) :=
  match fuel with
  | O => NoReturn
  | S fuel =>
      if negb (running_ m) then Ok (-1, m)
      else
        let '(m, msg) := assignMessageId m message in
        if fragmentSize (config_ m) <? size (data msg) then
          try! fragments := fragmentMessage (config_ m) msg in
          sendEach (send fuel env) fragments m 0
        else
          try! processedData :=
            processOutgoingData fuel (config_ m) (env (length (socket m))) (data msg) in
          if bool_decide (processedData = []) then Ok (-1, m)
          else
            let bytesSent := to_int (size processedData) in
            Ok (bytesSent, emit m processedData bytesSent)
  end.

(** *** Receive path *)

(** [v[i] = x] on a [std::vector]: defined only below [v.size()]. *)
Definition store {A} (v : list A) (i : Z) (x : A) : option (list A) :=
  if (0 <=? i) && (i <? size v) then Some (<[Z.to_nat i := x]> v) else None.

Definition isFragmentComplete (fragmentInfo : FragmentInfo) : bool :=
  receivedFragments fragmentInfo =? fi_totalFragments fragmentInfo.

(** [reassembleFragments] reads [fragments[0]] three times, then
    concatenates the payloads in index order.  [fragmentIndex] and
    [totalFragments] of the result are never assigned and keep the contents
    [uninit] of the local [reassembled]. *)
Definition reassembleFragments (uninit : NetworkMessage)
    (fragmentInfo : FragmentInfo) : option NetworkMessage :=
  match fragments fragmentInfo !! 0%nat with
  | None => None
  | Some first =>
      Some {| messageId := messageId first;
              reliability := reliability first;
              timestamp := timestamp first;
              isFragment := false;
              fragmentIndex := fragmentIndex uninit;
              totalFragments := totalFragments uninit;
              data := concat (map data (fragments fragmentInfo)) |}
  end.

(** The tail of [processIncomingData]: activity stamp, callback, queue. *)
Definition deliver (m : t) (message : NetworkMessage) (clientId now : Z) : t := {|
  config_ := config_ m; running_ := running_ m;
  messageCallback_ := messageCallback_ m;
  callbackCalls :=
    if messageCallback_ m then callbackCalls m ++ [message] else callbackCalls m;
  messageQueue_ := messageQueue_ m ++ [message];
  fragmentMap_ := fragmentMap_ m;
  nextMessageId_ := nextMessageId_ m; bytesSent_ := bytesSent_ m;
  lastActivity_ := <[clientId := now]> (lastActivity_ m);
  socket := socket m
|}.

(** The value-initialised [FragmentInfo] that [fragmentMap_[id]] creates. *)
Definition emptyFragmentInfo : FragmentInfo := {|
  fragments := []; fi_timestamp := 0; fi_totalFragments := 0; receivedFragments := 0
|}.

(** Every fragment buffer is the empty vector it was created as. *)
Definition buffers_empty (m : t) : Prop :=
  ∀ id fragmentInfo,
    fragmentMap_ m !! id = Some fragmentInfo -> fragments fragmentInfo = [].

(** [processIncomingData].  The local [NetworkMessage message] is declared
    without initialiser: [header] carries the contents its members other
    than [data] and [timestamp] have when they are read, and [uninit] those
    of the local of [reassembleFragments]. *)
Definition processIncomingData (m : t) (u : Crypto.Indeterminate)
    (header uninit : NetworkMessage) (epoch_ms now : Z) (payload : list Z)
    (clientId : Z) : result t :=
  match decodeIncoming (config_ m) u payload with
  | None => Ok m
  | Some processedData =>
      let message := {|
        data := processedData;
        timestamp := u32 epoch_ms;
        reliability := reliability header;
        messageId := messageId header;
        fragmentIndex := fragmentIndex header;
        totalFragments := totalFragments header;
        isFragment := isFragment header
      |} in
      if isFragment message then
        let fragmentInfo :=
          default emptyFragmentInfo (fragmentMap_ m !! messageId message) in
        let fragmentInfo :=
          if bool_decide (fragments fragmentInfo = []) then {|
            fragments := fragments fragmentInfo;
            fi_timestamp := now;
            fi_totalFragments := totalFragments message;
            receivedFragments := 0
          |} else fragmentInfo in
        match store (fragments fragmentInfo) (fragmentIndex message) message with
        | None => Undefined
        | Some stored =>
            let fragmentInfo := {|
              fragments := stored;
              fi_timestamp := fi_timestamp fragmentInfo;
              fi_totalFragments := fi_totalFragments fragmentInfo;
              receivedFragments := u32 (receivedFragments fragmentInfo + 1)
            |} in
            let m := set_fragmentMap m
                       (<[messageId message := fragmentInfo]> (fragmentMap_ m)) in
            if isFragmentComplete fragmentInfo then
              match reassembleFragments uninit fragmentInfo with
              | None => Undefined
              | Some message =>
                  Ok (deliver
                        (set_fragmentMap m (delete (messageId message) (fragmentMap_ m)))
                        message clientId now)
              end
            else Ok m
        end
      else Ok (deliver m message clientId now)
  end.

Definition cleanupExpiredFragments (m : t) (now : Z) : t :=
  set_fragmentMap m
    (filter (fun kv => ¬ (milliseconds (fragmentTimeout (config_ m))
                          <= now - fi_timestamp kv.2))
            (fragmentMap_ m)).

(** [receive]: the front of the message queue, if any. *)
Definition receive (m : t) : option NetworkMessage * t :=
  match messageQueue_ m with
  | [] => (None, m)
  | message :: rest =>
      (Some message,
       {| config_ := config_ m; running_ := running_ m;
          messageCallback_ := messageCallback_ m; callbackCalls := callbackCalls m;
          messageQueue_ := rest; fragmentMap_ := fragmentMap_ m;
          nextMessageId_ := nextMessageId_ m; bytesSent_ := bytesSent_ m;
          lastActivity_ := lastActivity_ m; socket := socket m |})
  end.

(** The managers the program can be in: built by [new], then driven by the
    calls that return. *)
Inductive reachable : t -> Prop :=
  | reachable_new config : reachable (new config)
  | reachable_start m : reachable m -> reachable (set_running m true)
  | reachable_callback m : reachable m -> reachable (setMessageCallback m)
  | reachable_send fuel env m message r m' :
      reachable m -> send fuel env m message = Ok (r, m') -> reachable m'
  | reachable_incoming m u header uninit epoch_ms now payload clientId m' :
      reachable m ->
      processIncomingData m u header uninit epoch_ms now payload clientId = Ok m' ->
      reachable m'
  | reachable_cleanup m now : reachable m -> reachable (cleanupExpiredFragments m now)
  | reachable_receive m : reachable m -> reachable (receive m).2.

End WithLibrary.

(** *** Connections and their timeouts

    [connections_] and the [connectionTimeout] option are passed to the
    functions that use them. *)

Definition disconnectClient (connections_ : gmap Z Connection.t) (clientId : Z)
  : gmap Z Connection.t :=
  delete clientId connections_.

Definition isClientConnected (connections_ : gmap Z Connection.t) (clientId : Z)
  : bool :=
  bool_decide (is_Some (connections_ !! clientId)).

(** [checkConnectionTimeouts]: the clients whose last activity lies
    [connectionTimeout] milliseconds or more back are collected, then
    disconnected one by one. *)
Definition checkConnectionTimeouts (connectionTimeout : Z) (lastActivity : gmap Z Z)
    (connections_ : gmap Z Connection.t) (now : Z) : gmap Z Connection.t :=
  let timeoutClients :=
    (map_to_list
       (filter (fun kv => milliseconds connectionTimeout <= now - kv.2) lastActivity)).*1 in
  fold_left disconnectClient timeoutClients connections_.

(** The body of [networkLoop] for one connection: [update], then
    [getPacketsToSend], then the byte count of what came back.  [now] is
    the clock of [update] and [later] that of [getPacketsToSend]. *)
Definition networkLoop_connection (c : Connection.t) (now later : Z) (bytesSent : Z)
  : list Connection.Packet * Connection.t * Z :=
  let c := Connection.update c now in
  let '(packets, c) := Connection.getPacketsToSend c later in
  (packets, c,
   fold_left (fun sent packet => u64 (sent + size (Connection.data packet)))
             packets bytesSent).

End NetworkManager.

(** ** Concrete inputs *)

Module Inputs.

(** An lz4/zstd stand-in whose every entry point reports failure. *)
Definition failing_library : Compression.Library := {|
  Compression.LZ4_compress_default := fun _ => None;
  Compression.ZSTD_compress := fun _ => None;
  Compression.LZ4_decompress_safe := fun _ _ => None;
  Compression.ZSTD_getFrameContentSize := fun _ => None;
  Compression.ZSTD_decompress := fun _ _ => None;
  Compression.ratio_lt_threshold := fun _ _ => false
|}.

Definition zero_key : list Z := repeat 0 16.
Definition zero_iv : list Z := repeat 0 12.

Definition zeroed : Crypto.Indeterminate := {|
  Crypto.previousBlock0 := repeat 0 16;
  Crypto.tag0 := repeat 0 16
|}.

Definition zero_draw : NetworkManager.Draw := {|
  NetworkManager.iv := zero_iv;
  NetworkManager.indeterminate := zeroed
|}.

(** Encryption on, compression off, under the all-zero 128-bit key. *)
Definition encrypting (mode : Crypto.Mode) : NetworkManager.NetworkConfig := {|
  NetworkManager.enableCompression := false;
  NetworkManager.compressionAlgorithm := Compression.ZSTD;
  NetworkManager.enableEncryption := true;
  NetworkManager.encryptionMode := mode;
  NetworkManager.encryptionKey := zero_key;
  NetworkManager.fragmentSize := 1024;
  NetworkManager.fragmentTimeout := 2000
|}.

(** Neither compression nor encryption. *)
Definition plain (fragmentSize : Z) : NetworkManager.NetworkConfig := {|
  NetworkManager.enableCompression := false;
  NetworkManager.compressionAlgorithm := Compression.ZSTD;
  NetworkManager.enableEncryption := false;
  NetworkManager.encryptionMode := Crypto.GCM;
  NetworkManager.encryptionKey := zero_key;
  NetworkManager.fragmentSize := fragmentSize;
  NetworkManager.fragmentTimeout := 2000
|}.

(** The one-byte payload "A" and what [encryptECB] makes of it. *)
Definition payload_A : list Z := [0x41].

Definition sealed_A : list Z :=
  [0xd5; 0x44; 0xc8; 0xca; 0x48; 0x51; 0x0a; 0xfb;
   0x28; 0xfe; 0x1c; 0xfa; 0x07; 0x0c; 0x94; 0x56].

(** Two ciphertext blocks that [decryptCBC] accepts: the second block
    decrypts to a block whose last byte, xor-ed with 0xa4, is the padding
    length 1. *)
Definition forged_blocks : list Z := (repeat 0 15 ++ [0xa4]) ++ repeat 0 16.

(** A reliable packet last sent at instant 0. *)
Definition sent_at_0 : Connection.Packet := {|
  Connection.sequenceNumber := 0;
  Connection.timestamp := 0;
  Connection.reliability := RELIABLE;
  Connection.data := [1; 2; 3];
  Connection.isAcknowledged := false;
  Connection.lastResendTime := 0
|}.

(** Two packets of the MEDIUM class: [first_enqueued] is due at 200,
    [second_enqueued] at 100. *)
Definition medium (deadline sequenceNumber : Z) : PacketScheduler.PacketMetadata := {|
  PacketScheduler.priority := PacketScheduler.MEDIUM;
  PacketScheduler.qos := PacketScheduler.BALANCED;
  PacketScheduler.deadline := deadline;
  PacketScheduler.size_ := 1;
  PacketScheduler.sequenceNumber := sequenceNumber;
  PacketScheduler.requiresAck := false;
  PacketScheduler.bandwidthLimit := 0%Q
|}.

Definition first_enqueued : PacketScheduler.PrioritizedPacket := {|
  PacketScheduler.data_ := [1];
  PacketScheduler.metadata_ := medium 200 0
|}.

Definition second_enqueued : PacketScheduler.PrioritizedPacket := {|
  PacketScheduler.data_ := [2];
  PacketScheduler.metadata_ := medium 100 1
|}.

(** The scheduler after [enqueuePacket] of the first, then of the second. *)
Definition two_enqueued : PacketScheduler.t :=
  (PacketScheduler.enqueuePacket
     (PacketScheduler.enqueuePacket (PacketScheduler.new 1000) [1] (medium 200 0)).2
     [2] (medium 100 1)).2.


Definition ten_bytes : NetworkManager.NetworkMessage := {|
  NetworkManager.data := [1; 2; 3; 4; 5; 6; 7; 8; 9; 10];
  NetworkManager.timestamp := 0;
  NetworkManager.reliability := RELIABLE;
  NetworkManager.messageId := 0;
  NetworkManager.fragmentIndex := 0;
  NetworkManager.totalFragments := 0;
  NetworkManager.isFragment := false
|}.

(** A manager with a callback installed that neither compresses nor
    encrypts; the header of a packet that is no fragment; the header of
    fragment 0 of 2 of message 7. *)
Definition listening_plain : NetworkManager.t :=
  NetworkManager.setMessageCallback (NetworkManager.new (plain 1024)).

Definition whole_header : NetworkManager.NetworkMessage := {|
  NetworkManager.data := [];
  NetworkManager.timestamp := 0;
  NetworkManager.reliability := RELIABLE;
  NetworkManager.messageId := 0;
  NetworkManager.fragmentIndex := 0;
  NetworkManager.totalFragments := 0;
  NetworkManager.isFragment := false
|}.

Definition fragment_header : NetworkManager.NetworkMessage := {|
  NetworkManager.data := [];
  NetworkManager.timestamp := 0;
  NetworkManager.reliability := RELIABLE;
  NetworkManager.messageId := 7;
  NetworkManager.fragmentIndex := 0;
  NetworkManager.totalFragments := 2;
  NetworkManager.isFragment := true
|}.

(** [processIncomingData] of the packet [9; 9] from client 0 at instant 0. *)
Definition incoming (m : NetworkManager.t) (header : NetworkManager.NetworkMessage)
  : result NetworkManager.t :=
  NetworkManager.processIncomingData failing_library m zeroed header whole_header
                                     0 0 [9; 9] 0.

(** A 256-bit key whose first half is [zero_key]. *)
Definition long_key : list Z := repeat 0 16 ++ repeat 0xff 16.

(** An lz4 stand-in whose decompressor succeeds and leaves the destination
    buffer of the requested size zero-filled. *)
Definition zero_filling_library : Compression.Library := {|
  Compression.LZ4_compress_default := fun _ => None;
  Compression.ZSTD_compress := fun _ => None;
  Compression.LZ4_decompress_safe := fun _ n => Some (repeat 0 (Z.to_nat n));
  Compression.ZSTD_getFrameContentSize := fun _ => None;
  Compression.ZSTD_decompress := fun _ _ => None;
  Compression.ratio_lt_threshold := fun _ _ => false
|}.

(** Compression on with the given algorithm, encryption off. *)
Definition compressing (algorithm : Compression.Algorithm)
  : NetworkManager.NetworkConfig := {|
  NetworkManager.enableCompression := true;
  NetworkManager.compressionAlgorithm := algorithm;
  NetworkManager.enableEncryption := false;
  NetworkManager.encryptionMode := Crypto.GCM;
  NetworkManager.encryptionKey := zero_key;
  NetworkManager.fragmentSize := 1024;
  NetworkManager.fragmentTimeout := 2000
|}.

(** A connection holding one reliable packet, queued at instant 0. *)
Definition one_pending : Connection.t :=
  Connection.queuePacket (Connection.new 1024 0) 0 0 [1; 2; 3] RELIABLE.

(** A connection holding one unreliable packet in its outgoing queue and
    one reliable packet in its table. *)
Definition one_of_each : Connection.t :=
  Connection.queuePacket one_pending 0 0 [4; 5] UNRELIABLE.

(** The empty message, and a running manager whose configuration has a
    fragment size of zero. *)
Definition empty_message : NetworkManager.NetworkMessage := {|
  NetworkManager.data := [];
  NetworkManager.timestamp := 0;
  NetworkManager.reliability := RELIABLE;
  NetworkManager.messageId := 0;
  NetworkManager.fragmentIndex := 0;
  NetworkManager.totalFragments := 0;
  NetworkManager.isFragment := false
|}.

Definition running_plain_0 : NetworkManager.t :=
  NetworkManager.set_running (NetworkManager.new (plain 0)) true.

End Inputs.

(** ** The specification's formulas *)

Module Spec.

(** "eligible for resend when now - last_send_instant >= max(100 ms, 2 RTT)",
    the round-trip time in nanoseconds. *)
Definition resend_eligible (now last_send_instant rtt : Z) : bool :=
  Z.max (milliseconds 100) (2 * rtt) <=? now - last_send_instant.

End Spec.

(** * Properties *)

(** ** Compression *)

Section CompressionFacts.

Variable lib : Compression.Library.

Lemma compress_pair_spends_fuel (fuel : nat) (data : list Z)
    (algorithm : Compression.Algorithm) :
  (Compression.MIN_COMPRESSION_SIZE <= length data)%nat ->
  Compression.compress lib fuel data algorithm = None
  ∧ Compression.shouldCompress lib fuel data algorithm = None.
Proof.
  intros Hlen. induction fuel as [|fuel [IHc IHs]]; [done|].
  assert (Hs : Compression.shouldCompress lib (S fuel) data algorithm = None).
  { cbn [Compression.shouldCompress].
    destruct (Nat.ltb_spec (length data) Compression.MIN_COMPRESSION_SIZE); [lia|].
    by rewrite IHc. }
  split; [|exact Hs].
  cbn [Compression.compress].
  case_bool_decide as Hnil.
  - subst data. cbn in Hlen. unfold Compression.MIN_COMPRESSION_SIZE in Hlen. lia.
  - by rewrite IHs.
Qed.

(** Below 64 bytes [shouldCompress] answers at once and [compress] hands
    the input back. *)
Lemma compress_small (fuel : nat) (data : list Z)
    (algorithm : Compression.Algorithm) :
  (length data < Compression.MIN_COMPRESSION_SIZE)%nat ->
  Compression.compress lib (S (S fuel)) data algorithm = Some data.
Proof.
  intros Hlen. cbn [Compression.compress Compression.shouldCompress].
  case_bool_decide; [done|].
  by destruct (Nat.ltb_spec (length data) Compression.MIN_COMPRESSION_SIZE); [|lia].
Qed.

End CompressionFacts.

(** C9.  [Compression::compress] does not return on an input of 64 bytes or
    more: [compress] asks [shouldCompress], which calls [compress] on the
    same vector, so whatever depth of calls is allowed, it is used up before
    a value comes back. *)
Theorem compress_no_return_from_64_bytes
    (lib : Compression.Library) (fuel : nat) (data : list Z)
    (algorithm : Compression.Algorithm) :
  (64 <= length data)%nat ->
  Compression.compress lib fuel data algorithm = None.
Proof. intros Hlen. by apply compress_pair_spends_fuel. Qed.

Lemma compress_no_return_from_64_bytes_witness :
  (64 <= length (repeat 0 64))%nat
  ∧ Compression.compress Inputs.failing_library 1000 (repeat 0 64) Compression.ZSTD
    = None.
Proof.
  split; [vm_compute; lia|].
  apply (compress_no_return_from_64_bytes Inputs.failing_library 1000
           (repeat 0 64) Compression.ZSTD).
  vm_compute; lia.
Defined.

(** ** Framing: seal and open *)

Lemma xorBlocks_length (dest src : Crypto.block) :
  length (Crypto.xorBlocks dest src) = Crypto.BLOCK_SIZE.
Proof. unfold Crypto.xorBlocks. by rewrite length_map, length_seq. Qed.

Lemma validateIV_true (iv : list Z) :
  length iv = Crypto.IV_SIZE -> Crypto.validateIV iv = true.
Proof. intros H. unfold Crypto.validateIV. rewrite H. apply Nat.eqb_refl. Qed.

(** With compression and encryption both off, a non-empty payload comes
    back as it went in. *)
Lemma open_of_seal_plain (lib : Compression.Library) (fuel : nat)
    (fragmentSize : Z) (d : NetworkManager.Draw) (u : Crypto.Indeterminate)
    (payload : list Z) :
  payload ≠ [] ->
  ∃ wire,
    NetworkManager.processOutgoingData lib fuel (Inputs.plain fragmentSize) d payload
    = Ok wire
    ∧ NetworkManager.decodeIncoming lib (Inputs.plain fragmentSize) u wire
      = Some payload.
Proof.
  intros Hne. exists payload. split; [done|].
  unfold NetworkManager.decodeIncoming. cbn.
  by case_bool_decide.
Qed.

(** The empty payload does not: [processIncomingData] returns on it. *)
Lemma open_of_seal_plain_empty (lib : Compression.Library) (fuel : nat)
    (fragmentSize : Z) (d : NetworkManager.Draw) (u : Crypto.Indeterminate) :
  NetworkManager.processOutgoingData lib fuel (Inputs.plain fragmentSize) d [] = Ok []
  ∧ NetworkManager.decodeIncoming lib (Inputs.plain fragmentSize) u [] = None.
Proof. done. Qed.

(** [decryptBlock] does not undo [encryptBlock]. *)
Lemma decryptBlock_encryptBlock_zero :
  Crypto.decryptBlock (Crypto.encryptBlock (repeat 0 16) Inputs.zero_key)
                      Inputs.zero_key
  = [0x55; 0x00; 0xd2; 0x1a; 0x70; 0xf5; 0xb4; 0x77;
     0xb2; 0x51; 0x5b; 0xe7; 0x89; 0xea; 0x92; 0x86].
Proof. vm_compute. reflexivity. Qed.

(** C1.  Sealing the one-byte payload "A" in ECB mode under the all-zero key
    gives the drawn IV followed by one cipher block; opening that packet
    with the same key fails in [unpadBlock] and the receive path returns
    without a payload, whatever IV was drawn. *)
Theorem open_of_seal_loses_payload
    (lib : Compression.Library) (fuel : nat) (d : NetworkManager.Draw)
    (u : Crypto.Indeterminate) :
  length (NetworkManager.iv d) = 12%nat ->
  NetworkManager.processOutgoingData lib fuel (Inputs.encrypting Crypto.ECB) d
                                     Inputs.payload_A
  = Ok (NetworkManager.iv d ++ Inputs.sealed_A)
  ∧ Crypto.decrypt u Inputs.sealed_A Inputs.zero_key (NetworkManager.iv d) Crypto.ECB
    = Throw runtime_error
  ∧ NetworkManager.decodeIncoming lib (Inputs.encrypting Crypto.ECB) u
                                  (NetworkManager.iv d ++ Inputs.sealed_A)
    = None.
Proof.
  intros Hiv.
  assert (Hdec : Crypto.decrypt u Inputs.sealed_A Inputs.zero_key
                   (NetworkManager.iv d) Crypto.ECB = Throw runtime_error).
  { unfold Crypto.decrypt. rewrite (validateIV_true _ Hiv).
    vm_compute. reflexivity. }
  split; [|split; [exact Hdec|]].
  - unfold NetworkManager.processOutgoingData, Crypto.encrypt.
    cbn [NetworkManager.enableCompression NetworkManager.enableEncryption
         NetworkManager.encryptionKey NetworkManager.encryptionMode
         Inputs.encrypting bind].
    rewrite (validateIV_true _ Hiv).
    vm_compute (Crypto.validateKey _). cbn [negb orb bind].
    vm_compute (Crypto.encryptECB _ _). reflexivity.
  - unfold NetworkManager.decodeIncoming.
    cbn [NetworkManager.enableCompression NetworkManager.enableEncryption
         NetworkManager.encryptionKey NetworkManager.encryptionMode
         Inputs.encrypting].
    case_bool_decide as Hnil.
    { apply (f_equal length) in Hnil. rewrite length_app in Hnil. cbn in Hnil. lia. }
    destruct (Nat.ltb_spec (length (NetworkManager.iv d ++ Inputs.sealed_A))
                           Crypto.IV_SIZE) as [Hlt|_].
    { rewrite length_app in Hlt. unfold Crypto.IV_SIZE in Hlt. lia. }
    unfold Crypto.IV_SIZE. rewrite <- Hiv.
    rewrite take_app_length, drop_app_length, Hdec. reflexivity.
Qed.

Lemma open_of_seal_loses_payload_witness :
  length (NetworkManager.iv Inputs.zero_draw) = 12%nat
  ∧ NetworkManager.decodeIncoming Inputs.failing_library
      (Inputs.encrypting Crypto.ECB) Inputs.zeroed
      (NetworkManager.iv Inputs.zero_draw ++ Inputs.sealed_A)
    = None.
Proof.
  split; [reflexivity|].
  apply (open_of_seal_loses_payload Inputs.failing_library 0 Inputs.zero_draw
           Inputs.zeroed).
  reflexivity.
Defined.

(** The same payload in CBC and in GCM mode, the unwritten array bytes
    being zero: the packet is sealed, and opening it fails. *)
Lemma open_of_seal_cbc_gcm_zeroed (mode : Crypto.Mode) :
  ∃ wire,
    NetworkManager.processOutgoingData Inputs.failing_library 0
      (Inputs.encrypting mode) Inputs.zero_draw Inputs.payload_A = Ok wire
    ∧ NetworkManager.decodeIncoming Inputs.failing_library
        (Inputs.encrypting mode) Inputs.zeroed wire = None.
Proof.
  exists (match NetworkManager.processOutgoingData Inputs.failing_library 0
                  (Inputs.encrypting mode) Inputs.zero_draw Inputs.payload_A with
          | Ok wire => wire
          | _ => []
          end).
  destruct mode; split; vm_compute; reflexivity.
Qed.

(** ** Authenticated decryption *)

(** [decryptGCM] gives the same answer whatever the 16 tag bytes are. *)
Lemma decryptGCM_any_tag (uninit : Crypto.block) (c key iv tag1 tag2 : list Z) :
  length tag1 = Crypto.GCM_TAG_SIZE ->
  length tag2 = Crypto.GCM_TAG_SIZE ->
  Crypto.decryptGCM uninit (c ++ tag1) key iv
  = Crypto.decryptGCM uninit (c ++ tag2) key iv.
Proof.
  intros H1 H2. unfold Crypto.decryptGCM.
  rewrite !length_app, H1, H2.
  replace (length c + Crypto.GCM_TAG_SIZE - Crypto.GCM_TAG_SIZE)%nat
    with (length c) by lia.
  by rewrite !take_app_length.
Qed.

Lemma decryptCBC_forged_blocks (uninit : Crypto.block) (iv : list Z) :
  ∃ plaintext,
    Crypto.decryptCBC uninit Inputs.forged_blocks Inputs.zero_key iv = Ok plaintext
    ∧ length plaintext = 31%nat.
Proof.
  unfold Crypto.decryptCBC.
  change (length Inputs.forged_blocks mod Crypto.BLOCK_SIZE =? 0)%nat with true.
  cbn [negb].
  change (Crypto.blocks Inputs.forged_blocks)
    with [repeat 0 15 ++ [0xa4]; repeat 0 16].
  cbn [Crypto.decryptCBC_loop].
  set (first := Crypto.xorBlocks _ (Crypto.initPreviousBlock uninit iv)).
  assert (Hfirst : length first = 16%nat) by apply xorBlocks_length.
  set (second := Crypto.xorBlocks _ _).
  vm_compute in second. subst second.
  rewrite app_nil_r. unfold Crypto.unpadBlock.
  rewrite last_app. cbn [last]. cbn [Z.ltb Z.eqb orb Z.of_nat].
  change (Z.of_nat Crypto.BLOCK_SIZE <? 1) with false. cbn [orb Z.eqb].
  eexists. split; [reflexivity|].
  rewrite length_take, length_app, Hfirst. reflexivity.
Qed.

(** C3.  A packet made of two chosen cipher blocks and any 16 tag bytes at
    all is opened by [decryptGCM]: the call returns 31 bytes of plaintext
    and the receive path goes on with them.  No tag is computed, so none is
    refused. *)
Theorem forged_packet_opens_under_any_tag
    (lib : Compression.Library) (u : Crypto.Indeterminate) (tag : list Z) :
  length tag = 16%nat ->
  ∃ plaintext,
    length plaintext = 31%nat
    ∧ Crypto.decryptGCM (Crypto.previousBlock0 u) (Inputs.forged_blocks ++ tag)
                        Inputs.zero_key Inputs.zero_iv
      = Ok plaintext
    ∧ NetworkManager.decodeIncoming lib (Inputs.encrypting Crypto.GCM) u
                                    (Inputs.zero_iv ++ Inputs.forged_blocks ++ tag)
      = Some plaintext.
Proof.
  intros Htag.
  destruct (decryptCBC_forged_blocks (Crypto.previousBlock0 u) Inputs.zero_iv)
    as (plaintext & Hcbc & Hlen).
  assert (Hgcm : Crypto.decryptGCM (Crypto.previousBlock0 u)
                   (Inputs.forged_blocks ++ tag) Inputs.zero_key Inputs.zero_iv
                 = Ok plaintext).
  { unfold Crypto.decryptGCM. rewrite length_app, Htag.
    change (length Inputs.forged_blocks) with 32%nat.
    change (32 + 16 <? Crypto.GCM_TAG_SIZE)%nat with false.
    change (32 + 16 - Crypto.GCM_TAG_SIZE)%nat with (length Inputs.forged_blocks).
    by rewrite take_app_length. }
  exists plaintext. split; [exact Hlen|]. split; [exact Hgcm|].
  unfold NetworkManager.decodeIncoming.
  cbn [NetworkManager.enableCompression NetworkManager.enableEncryption
       NetworkManager.encryptionKey NetworkManager.encryptionMode
       Inputs.encrypting].
  case_bool_decide as Hnil; [discriminate Hnil|].
  assert (Hlong : (length (Inputs.zero_iv ++ Inputs.forged_blocks ++ tag)
                   <? Crypto.IV_SIZE)%nat = false).
  { rewrite !length_app, Htag. reflexivity. }
  rewrite Hlong.
  change Crypto.IV_SIZE with (length Inputs.zero_iv).
  rewrite take_app_length, drop_app_length.
  unfold Crypto.decrypt.
  change (Crypto.validateKey Inputs.zero_key) with true.
  change (Crypto.validateIV Inputs.zero_iv) with true.
  cbn [negb orb].
  by rewrite Hgcm.
Qed.

Lemma forged_packet_opens_under_any_tag_witness :
  length (repeat 0xff 16) = 16%nat
  ∧ ∃ plaintext,
      length plaintext = 31%nat
      ∧ Crypto.decryptGCM (Crypto.previousBlock0 Inputs.zeroed)
          (Inputs.forged_blocks ++ repeat 0xff 16) Inputs.zero_key Inputs.zero_iv
        = Ok plaintext
      ∧ NetworkManager.decodeIncoming Inputs.failing_library
          (Inputs.encrypting Crypto.GCM) Inputs.zeroed
          (Inputs.zero_iv ++ Inputs.forged_blocks ++ repeat 0xff 16)
        = Some plaintext.
Proof.
  split; [reflexivity|].
  apply (forged_packet_opens_under_any_tag Inputs.failing_library Inputs.zeroed
           (repeat 0xff 16)).
  reflexivity.
Defined.

(** ** Single precision *)

(** [0.1f] is one tenth rounded to single precision, and a single-precision
    quotient is not the exact one: 1 / 3 is stored as 11184811 / 2^25. *)
Lemma round_one_tenth : Float.round (1 # 10) = Connection.RESEND_TIMEOUT.
Proof. reflexivity. Qed.

Lemma div_one_by_three :
  Float.div (Float.of_Z 1) (Float.of_Z 3) = (11184811 # 33554432)%Q.
Proof. reflexivity. Qed.

(** Above 2^24 not every integer is a [float]. *)
Lemma of_Z_above_24_bits :
  Float.of_Z 16777217 = 16777216%Q ∧ Float.of_Z 4294967295 = 4294967296%Q.
Proof. split; reflexivity. Qed.

(** ** Reliability engine *)

Lemma RESEND_TIMEOUT_whole_seconds (n : Z) :
  Qle_bool Connection.RESEND_TIMEOUT (inject_Z n) = true ↔ 1 <= n.
Proof.
  unfold Qle_bool, Connection.RESEND_TIMEOUT, inject_Z. cbn [Qnum Qden].
  rewrite Z.leb_le. lia.
Qed.

Lemma duration_cast_seconds_ge_1 (d : Z) :
  1 <= duration_cast_seconds d ↔ 1000000000 <= d.
Proof.
  unfold duration_cast_seconds.
  pose proof (Z.quot_rem' d 1000000000) as Hqr.
  destruct (Z_lt_le_dec d 0) as [Hneg|Hpos].
  - pose proof (Z.quot_opp_l d 1000000000 ltac:(lia)) as Ho.
    pose proof (Z.quot_pos (- d) 1000000000 ltac:(lia) ltac:(lia)). lia.
  - pose proof (Z.rem_bound_pos d 1000000000 Hpos ltac:(lia)). lia.
Qed.

(** When [shouldResendPacket] holds. *)
Lemma shouldResendPacket_spec (packet : Connection.Packet) (now : Z) :
  Connection.shouldResendPacket packet now = true
  ↔ Connection.isAcknowledged packet = false
    ∧ 1000000000 <= now - Connection.lastResendTime packet.
Proof.
  unfold Connection.shouldResendPacket.
  destruct (Connection.isAcknowledged packet).
  - split; [discriminate|intros [? _]; discriminate].
  - rewrite RESEND_TIMEOUT_whole_seconds, duration_cast_seconds_ge_1. tauto.
Qed.

(** What the resend pass leaves under each sequence number. *)
Lemma resendUnacknowledgedPackets_lookup (c : Connection.t) (now seq : Z) :
  Connection.unacknowledgedPackets_ (Connection.resendUnacknowledgedPackets c now)
    !! seq
  = match Connection.unacknowledgedPackets_ c !! seq with
    | Some packet =>
        if Connection.shouldResendPacket packet now
        then Some (Connection.set_lastResendTime packet now)
        else None
    | None => None
    end.
Proof.
  unfold Connection.resendUnacknowledgedPackets. cbn.
  rewrite lookup_fmap.
  destruct (Connection.unacknowledgedPackets_ c !! seq) as [packet|] eqn:Hseq.
  - destruct (Connection.shouldResendPacket packet now) eqn:Hdue.
    + erewrite map_lookup_filter_Some_2; [done|exact Hseq|exact Hdue].
    + rewrite map_lookup_filter_None_2; [done|].
      right. intros packet' Hseq'. cbn. congruence.
  - rewrite map_lookup_filter_None_2; [done|]. by left.
Qed.

Lemma update_unacknowledgedPackets (c : Connection.t) (now : Z) :
  Connection.unacknowledgedPackets_ (Connection.update c now)
  = Connection.unacknowledgedPackets_ (Connection.resendUnacknowledgedPackets c now).
Proof.
  unfold Connection.update.
  destruct (1 <=? _); [|done].
  unfold Connection.updateStatistics. by destruct (0 <? _).
Qed.

(** No step of [update] touches the loss counter or the outgoing queue. *)
Lemma update_counters (c : Connection.t) (now : Z) :
  Connection.packetsLost_ (Connection.update c now) = Connection.packetsLost_ c
  ∧ Connection.packetsSent_ (Connection.update c now) = Connection.packetsSent_ c
  ∧ Connection.outgoingPackets_ (Connection.update c now)
    = Connection.outgoingPackets_ c.
Proof.
  unfold Connection.update.
  destruct (1 <=? _); [|done].
  unfold Connection.updateStatistics. by destruct (0 <? _).
Qed.

(** An acknowledgement removes the entry of its sequence number and no
    other. *)
Lemma handleAcknowledgment_lookup (c : Connection.t) (acked seq : Z) :
  Connection.unacknowledgedPackets_ (Connection.handleAcknowledgment c acked) !! seq
  = if decide (acked = seq) then None
    else Connection.unacknowledgedPackets_ c !! seq.
Proof.
  unfold Connection.handleAcknowledgment.
  destruct (Connection.unacknowledgedPackets_ c !! acked) as [packet|] eqn:Hacked.
  - cbn. rewrite lookup_delete. by destruct (decide (acked = seq)).
  - destruct (decide (acked = seq)) as [->|]; [exact Hacked|reflexivity].
Qed.

(** A 4-byte inbound packet is an acknowledgement of the sequence number it
    spells. *)
Lemma processIncomingPacket_ack (c : Connection.t) (epoch_ms now : Z)
    (payload : list Z) :
  length payload = 4%nat ->
  (Connection.processIncomingPacket c epoch_ms now payload).1 = true
  ∧ Connection.unacknowledgedPackets_
      (Connection.processIncomingPacket c epoch_ms now payload).2 !! le32 payload
    = None.
Proof.
  intros Hlen. unfold Connection.processIncomingPacket. rewrite Hlen.
  cbn [Nat.ltb Nat.leb Nat.eqb fst snd]. split; [reflexivity|].
  rewrite handleAcknowledgment_lookup. by destruct (decide _).
Qed.

(** C2.  A reliable packet queued at [now] and met by the periodic pass less
    than one second later is erased from the unacknowledged table: it was
    not acknowledged, no retry was counted, the loss counter is where it
    was, and the packet is in no queue any more. *)
Theorem update_erases_packet_not_yet_due
    (c : Connection.t) (epoch_ms now later : Z) (payload : list Z)
    (r : PacketReliability) :
  r ≠ UNRELIABLE ->
  later - now < 1000000000 ->
  let seq := Connection.nextSequenceNumber_ c in
  let queued := Connection.queuePacket c epoch_ms now payload r in
  let updated := Connection.update queued later in
  (∃ packet,
      Connection.unacknowledgedPackets_ queued !! seq = Some packet
      ∧ Connection.isAcknowledged packet = false
      ∧ Connection.data packet = payload)
  ∧ Connection.unacknowledgedPackets_ updated !! seq = None
  ∧ Connection.packetsLost_ updated = Connection.packetsLost_ c
  ∧ Connection.outgoingPackets_ updated = Connection.outgoingPackets_ c.
Proof.
  intros Hrel Hsoon seq queued updated.
  assert (Hq : Connection.unacknowledgedPackets_ queued !! seq
               = Some {| Connection.sequenceNumber := seq;
                         Connection.timestamp := u32 epoch_ms;
                         Connection.reliability := r;
                         Connection.data := payload;
                         Connection.isAcknowledged := false;
                         Connection.lastResendTime := now |}).
  { subst queued. unfold Connection.queuePacket.
    destruct (decide (r = UNRELIABLE)); [done|]. cbn.
    apply lookup_insert_eq. }
  assert (Hout : Connection.outgoingPackets_ queued = Connection.outgoingPackets_ c).
  { subst queued. unfold Connection.queuePacket.
    by destruct (decide (r = UNRELIABLE)). }
  assert (Hlost : Connection.packetsLost_ queued = Connection.packetsLost_ c).
  { subst queued. unfold Connection.queuePacket.
    by destruct (decide (r = UNRELIABLE)). }
  split; [eexists; split; [exact Hq|done]|].
  destruct (update_counters queued later) as (Hl & _ & Ho).
  split; [|split; [subst updated; congruence|subst updated; congruence]].
  subst updated.
  rewrite update_unacknowledgedPackets, resendUnacknowledgedPackets_lookup, Hq.
  destruct (Connection.shouldResendPacket _ later) eqn:Hdue; [|done].
  apply shouldResendPacket_spec in Hdue. cbn in Hdue. lia.
Qed.

Lemma update_erases_packet_not_yet_due_witness :
  RELIABLE ≠ UNRELIABLE
  ∧ milliseconds 150 - 0 < 1000000000
  ∧ Connection.unacknowledgedPackets_
      (Connection.update
         (Connection.queuePacket (Connection.new 1024 0) 0 0 [1; 2; 3] RELIABLE)
         (milliseconds 150)) !! 0
    = None.
Proof.
  split; [discriminate|]. split; [reflexivity|].
  apply (update_erases_packet_not_yet_due (Connection.new 1024 0) 0 0
           (milliseconds 150) [1; 2; 3] RELIABLE); [discriminate|reflexivity].
Defined.

(** C6.  An unacknowledged packet whose last send lies at least
    max(100 ms, 2 RTT) but less than one second back is not eligible for
    resend: the elapsed time is cut down to whole seconds before it is
    compared with [RESEND_TIMEOUT], so it counts as zero.  The
    specification's rule calls the same packet eligible. *)
Theorem shouldResendPacket_false_below_one_second
    (packet : Connection.Packet) (now rtt : Z) :
  Connection.isAcknowledged packet = false ->
  Z.max (milliseconds 100) (2 * rtt)
    <= now - Connection.lastResendTime packet < 1000000000 ->
  Connection.shouldResendPacket packet now = false
  ∧ Spec.resend_eligible now (Connection.lastResendTime packet) rtt = true.
Proof.
  intros Hack [Hlo Hhi]. split.
  - destruct (Connection.shouldResendPacket packet now) eqn:Hdue; [|done].
    apply shouldResendPacket_spec in Hdue. lia.
  - unfold Spec.resend_eligible. by apply Z.leb_le.
Qed.

Lemma shouldResendPacket_false_below_one_second_witness :
  Connection.isAcknowledged Inputs.sent_at_0 = false
  ∧ Z.max (milliseconds 100) (2 * milliseconds 40)
    <= milliseconds 150 - Connection.lastResendTime Inputs.sent_at_0 < 1000000000
  ∧ Connection.shouldResendPacket Inputs.sent_at_0 (milliseconds 150) = false
  ∧ Spec.resend_eligible (milliseconds 150)
      (Connection.lastResendTime Inputs.sent_at_0) (milliseconds 40) = true.
Proof.
  split; [reflexivity|].
  split; [vm_compute; split; [discriminate|reflexivity]|].
  apply (shouldResendPacket_false_below_one_second Inputs.sent_at_0
           (milliseconds 150) (milliseconds 40)).
  - reflexivity.
  - vm_compute. split; [discriminate|reflexivity].
Defined.

(** The resend paths refresh [lastResendTime] and nothing else: a packet
    has no retry counter to increment. *)
Lemma resend_refreshes_lastResendTime (c : Connection.t) (now seq : Z)
    (packet : Connection.Packet) :
  Connection.unacknowledgedPackets_ c !! seq = Some packet ->
  Connection.shouldResendPacket packet now = true ->
  Connection.unacknowledgedPackets_ (Connection.resendUnacknowledgedPackets c now)
    !! seq
  = Some (Connection.set_lastResendTime packet now).
Proof.
  intros Hseq Hdue. by rewrite resendUnacknowledgedPackets_lookup, Hseq, Hdue.
Qed.

(** ** Priority scheduler *)

Section SchedulerFacts.

Import PacketScheduler.

Lemma lt_false_iff (a b : PrioritizedPacket) :
  lt a b = false
  ↔ priority_int (priority (metadata_ a)) < priority_int (priority (metadata_ b))
    ∨ (priority_int (priority (metadata_ a)) = priority_int (priority (metadata_ b))
       ∧ deadline (metadata_ a) <= deadline (metadata_ b)).
Proof.
  unfold lt.
  destruct (Z.eqb_spec (priority_int (priority (metadata_ a)))
                       (priority_int (priority (metadata_ b)))) as [Heq|Hne];
    cbn [negb]; rewrite Z.gtb_ltb, Z.ltb_ge; lia.
Qed.

Lemma lt_irrefl (a : PrioritizedPacket) : lt a a = false.
Proof. apply lt_false_iff. lia. Qed.

Lemma lt_asym (a b : PrioritizedPacket) : lt a b = true -> lt b a = false.
Proof.
  intros Hab. apply lt_false_iff.
  destruct (lt b a) eqn:Hba; [|by apply lt_false_iff in Hba].
  assert (Ha : lt a b ≠ false) by congruence.
  assert (Hb : lt b a ≠ false) by congruence.
  rewrite lt_false_iff in Ha, Hb. lia.
Qed.

Lemma lt_false_trans (a b c : PrioritizedPacket) :
  lt a b = false -> lt b c = false -> lt a c = false.
Proof. rewrite !lt_false_iff. lia. Qed.

Lemma pops_inv (q : priority_queue) (p : PrioritizedPacket) (rest : priority_queue) :
  pops q p rest ->
  ∃ l1 l2, q = l1 ++ p :: l2 ∧ rest = l1 ++ l2 ∧ is_top q p.
Proof. intros H. destruct H as [l1 l2 p Htop]. by exists l1, l2. Qed.

Lemma pops_length (q : priority_queue) (p : PrioritizedPacket) (rest : priority_queue) :
  pops q p rest -> length q = S (length rest).
Proof.
  intros H. destruct (pops_inv _ _ _ H) as (l1 & l2 & Hq & Hrest & _).
  subst q rest. rewrite !length_app. cbn. lia.
Qed.

Lemma pops_elem_of (q : priority_queue) (p : PrioritizedPacket) (rest : priority_queue) :
  pops q p rest -> ∀ p', p' ∈ rest -> p' ∈ q.
Proof.
  intros H p'. destruct (pops_inv _ _ _ H) as (l1 & l2 & Hq & Hrest & _).
  subst q rest. rewrite !elem_of_app, elem_of_cons. tauto.
Qed.

(** The computing [pop] picks a [top()] the container may pick. *)
Lemma pop_pops (q : priority_queue) (p : PrioritizedPacket) (rest : priority_queue) :
  pop q = Some (p, rest) -> pops q p rest.
Proof.
  revert p rest. induction q as [|x q IH]; intros p rest Hpop; [done|].
  cbn in Hpop. destruct (pop q) as [[m r]|] eqn:Hq.
  - destruct (pops_inv _ _ _ (IH m r eq_refl)) as (l1 & l2 & Hl & Hr & _ & Hmax).
    destruct (lt x m) eqn:Hxm; inversion Hpop; subst p rest; clear Hpop.
    + subst q r. apply (pops_at (x :: l1) l2 m). split; [set_solver|].
      intros p' Hp'. apply elem_of_cons in Hp' as [->|Hp'].
      * by apply lt_asym.
      * by apply Hmax.
    + apply (pops_at [] q x). split; [set_solver|].
      intros p' Hp'. apply elem_of_cons in Hp' as [->|Hp'].
      * apply lt_irrefl.
      * eapply lt_false_trans; [exact Hxm|]. by apply Hmax.
  - assert (q = []) as ->.
    { destruct q as [|y q]; [done|]. cbn in Hq.
      destruct (pop q) as [[m r]|]; [destruct (lt y m)|]; discriminate. }
    inversion Hpop; subst. apply (pops_at [] [] p). split; [set_solver|].
    intros p' Hp'. apply list_elem_of_singleton in Hp' as ->. apply lt_irrefl.
Qed.

Lemma pop_None (q : priority_queue) : pop q = None -> q = [].
Proof.
  destruct q as [|x q]; [done|]. cbn.
  destruct (pop q) as [[m r]|]; [destruct (lt x m)|]; discriminate.
Qed.

(** [dequeuePacket] is one of the calls [dequeues] describes. *)
Lemma dequeuePacket_dequeues (s : t) (now : Z) :
  dequeues now (packetQueue_ s) (dequeuePacket s now).1
           (packetQueue_ (dequeuePacket s now).2).
Proof.
  unfold dequeuePacket. destruct (pop (packetQueue_ s)) as [[packet rest]|] eqn:Hpop.
  - apply pop_pops in Hpop.
    destruct (Z.ltb_spec (deadline (metadata_ packet)) now) as [Hexp|Hok]; cbn.
    + by eapply dequeues_expired.
    + eapply dequeues_top; [exact Hpop|lia].
  - apply pop_None in Hpop. cbn. rewrite Hpop. apply dequeues_empty.
Qed.

(** What is left in the queue was in it before the call. *)
Lemma dequeues_elem_of (now : Z) (q : priority_queue)
    (r : result (option PrioritizedPacket)) (q' : priority_queue) :
  dequeues now q r q' -> ∀ p', p' ∈ q' -> p' ∈ q.
Proof.
  destruct 1 as [|q packet rest Hpop _|q packet rest Hpop _];
    intros p' Hp'; [done| |]; eauto using pops_elem_of.
Qed.

End SchedulerFacts.

(** C7 as the specification words it fails on two MEDIUM packets: the one
    enqueued second has the earlier deadline and is released first. *)
Lemma second_enqueued_is_released_first :
  PacketScheduler.packetQueue_ Inputs.two_enqueued
  = [Inputs.first_enqueued; Inputs.second_enqueued]
  ∧ (PacketScheduler.dequeuePacket Inputs.two_enqueued 0).1
    = Ok (Some Inputs.second_enqueued)
  ∧ (PacketScheduler.dequeuePacket Inputs.two_enqueued 0).1
    ≠ Ok (Some Inputs.first_enqueued).
Proof. split; [reflexivity|]. split; [reflexivity|]. vm_compute. discriminate. Qed.

(** Whatever [top()] the queue picks among equals, the packet released has
    not expired and no packet of its class left behind has an earlier
    deadline. *)
Lemma dequeues_earliest_deadline_in_class
    (now : Z) (q : PacketScheduler.priority_queue)
    (packet : PacketScheduler.PrioritizedPacket)
    (rest : PacketScheduler.priority_queue) :
  PacketScheduler.dequeues now q (Ok (Some packet)) rest ->
  now <= PacketScheduler.deadline (PacketScheduler.metadata_ packet)
  ∧ ∀ other,
      other ∈ rest ->
      PacketScheduler.priority (PacketScheduler.metadata_ other)
      = PacketScheduler.priority (PacketScheduler.metadata_ packet) ->
      PacketScheduler.deadline (PacketScheduler.metadata_ packet)
      <= PacketScheduler.deadline (PacketScheduler.metadata_ other).
Proof.
  intros H. remember (Ok (Some packet)) as r eqn:Hr.
  destruct H as [|q p rest' Hpop Hexp|q p rest' Hpop Hok];
    [discriminate|discriminate|].
  inversion Hr; subst p; clear Hr. split; [lia|].
  intros other Hin Hclass.
  destruct (pops_inv _ _ _ Hpop) as (l1 & l2 & Hq & Hrest & _ & Hmax).
  assert (Hle : PacketScheduler.lt packet other = false).
  { apply Hmax. subst q rest'. revert Hin.
    rewrite !elem_of_app, elem_of_cons. tauto. }
  apply lt_false_iff in Hle. rewrite Hclass in Hle. lia.
Qed.

(** C7, amended.  The packet [dequeuePacket] releases has not expired, and
    no packet of its class still queued has an earlier deadline: within a
    class the order is by deadline, and enqueue order has no say where
    deadlines differ. *)
Theorem dequeuePacket_earliest_deadline_in_class
    (s : PacketScheduler.t) (now : Z)
    (packet : PacketScheduler.PrioritizedPacket) :
  (PacketScheduler.dequeuePacket s now).1 = Ok (Some packet) ->
  now <= PacketScheduler.deadline (PacketScheduler.metadata_ packet)
  ∧ ∀ other,
      other ∈ PacketScheduler.packetQueue_ (PacketScheduler.dequeuePacket s now).2 ->
      PacketScheduler.priority (PacketScheduler.metadata_ other)
      = PacketScheduler.priority (PacketScheduler.metadata_ packet) ->
      PacketScheduler.deadline (PacketScheduler.metadata_ packet)
      <= PacketScheduler.deadline (PacketScheduler.metadata_ other).
Proof.
  intros Hret. pose proof (dequeuePacket_dequeues s now) as Hrun.
  rewrite Hret in Hrun. by apply (dequeues_earliest_deadline_in_class _ _ _ _ Hrun).
Qed.

Lemma dequeuePacket_earliest_deadline_in_class_witness :
  (PacketScheduler.dequeuePacket Inputs.two_enqueued 0).1
  = Ok (Some Inputs.second_enqueued)
  ∧ 0 <= PacketScheduler.deadline (PacketScheduler.metadata_ Inputs.second_enqueued).
Proof.
  split; [reflexivity|].
  apply (dequeuePacket_earliest_deadline_in_class Inputs.two_enqueued 0
           Inputs.second_enqueued).
  reflexivity.
Defined.

(** ** Fragmenter *)

Section FragmentFacts.

Import NetworkManager.

Lemma slice_app (l : list Z) (a b c : Z) :
  0 <= a <= b -> b <= c -> slice l a b ++ slice l b c = slice l a c.
Proof.
  intros Hab Hbc. unfold slice.
  replace (Z.to_nat b) with (Z.to_nat a + Z.to_nat (b - a))%nat by lia.
  rewrite <- drop_drop, take_take_drop. f_equal. lia.
Qed.

Lemma slice_all (l : list Z) (c : Z) : size l <= c -> slice l 0 c = l.
Proof.
  intros Hc. unfold slice, size in *. rewrite drop_0. apply take_ge. lia.
Qed.


(** The chunks [i * fs .. min (i * fs + fs) n] of the first [k] loop
    iterations make up the payload up to [k * fs]. *)
Lemma chunks_concat (l : list Z) (fs : Z) (k : nat) :
  0 < fs ->
  (Z.of_nat k - 1) * fs < size l ->
  concat (map (fun i : nat =>
                 slice l (Z.of_nat i * fs) (Z.min (Z.of_nat i * fs + fs) (size l)))
              (seq 0 k))
  = slice l 0 (Z.min (Z.of_nat k * fs) (size l)).
Proof.
  intros Hfs. induction k as [|k IH]; intros Hk.
  - cbn [seq map concat]. unfold slice.
    replace (Z.to_nat (Z.min (Z.of_nat 0 * fs) (size l) - 0)) with 0%nat
      by (unfold size; lia).
    reflexivity.
  - rewrite seq_S, map_app, concat_app, IH by nia. cbn [map concat Nat.add].
    rewrite app_nil_r.
    replace (Z.min (Z.of_nat k * fs) (size l)) with (Z.of_nat k * fs) by nia.
    replace (Z.of_nat (S k) * fs) with (Z.of_nat k * fs + fs) by lia.
    apply slice_app; nia.
Qed.

Lemma ceil_div_bounds (n fs : Z) :
  0 < fs -> 0 <= n ->
  ((n + fs - 1) / fs - 1) * fs < n <= (n + fs - 1) / fs * fs.
Proof.
  intros Hfs Hn.
  pose proof (Z.div_mod (n + fs - 1) fs ltac:(lia)) as Hdm.
  pose proof (Z.mod_pos_bound (n + fs - 1) fs Hfs) as Hr.
  nia.
Qed.

Lemma u64_small (z : Z) : 0 <= z < 2 ^ 64 -> u64 z = z.
Proof. intros H. unfold u64. by apply Z.mod_small. Qed.

Lemma u32_small (z : Z) : 0 <= z < 2 ^ 32 -> u32 z = z.
Proof. intros H. unfold u32. by apply Z.mod_small. Qed.

(** What [fragmentMessage] returns when the payload is longer than one
    fragment and shorter than 2^32 bytes. *)
Lemma fragmentMessage_spec (config : NetworkConfig) (message : NetworkMessage) :
  let fs := fragmentSize config in
  let n := size (data message) in
  let N := (n + fs - 1) / fs in
  0 < fs < 2 ^ 32 -> n < 2 ^ 32 ->
  fragmentMessage config message
  = Ok (map (fun i : nat =>
               {| messageId := messageId message;
                  fragmentIndex := Z.of_nat i;
                  totalFragments := N;
                  isFragment := true;
                  reliability := reliability message;
                  timestamp := timestamp message;
                  data := slice (data message) (Z.of_nat i * fs)
                                (Z.min (Z.of_nat i * fs + fs) n) |})
            (seq 0 (Z.to_nat N))).
Proof.
  intros fs n N [Hfs Hfs32] Hn.
  assert (Hn0 : 0 <= n) by (unfold n, size; lia).
  pose proof (ceil_div_bounds n fs Hfs Hn0) as HN. fold N in HN.
  assert (HNn : N <= n) by nia.
  unfold fragmentMessage. fold fs n.
  destruct (Z.eqb_spec fs 0) as [|_]; [lia|].
  rewrite (u64_small (n + fs - 1)) by lia. fold N. f_equal.
  apply map_ext_in. intros i Hi%in_seq.
  assert (Hi' : Z.of_nat i <= N - 1) by lia.
  assert (Hstart : 0 <= Z.of_nat i * fs < n) by nia.
  rewrite (u64_small (Z.of_nat i * fs)) by lia.
  rewrite (u64_small (Z.of_nat i * fs + fs)) by lia.
  rewrite (u32_small (Z.of_nat i)), (u32_small N) by lia. reflexivity.
Qed.

Lemma assignMessageId_preserves (m : t) (message : NetworkMessage) :
  data (assignMessageId m message).2 = data message
  ∧ config_ (assignMessageId m message).1 = config_ m
  ∧ running_ (assignMessageId m message).1 = running_ m
  ∧ socket (assignMessageId m message).1 = socket m.
Proof. unfold assignMessageId. by destruct (messageId message =? 0). Qed.

Variable lib : Compression.Library.

Lemma send_S (fuel : nat) (env : nat -> Draw) (m : t) (message : NetworkMessage) :
  send lib (S fuel) env m message
  = if negb (running_ m) then Ok (-1, m)
    else
      let '(m, msg) := assignMessageId m message in
      if fragmentSize (config_ m) <? size (data msg) then
        try! fragments := fragmentMessage (config_ m) msg in
        sendEach (send lib fuel env) fragments m 0
      else
        try! processedData :=
          processOutgoingData lib fuel (config_ m) (env (length (socket m)))
                              (data msg) in
        if bool_decide (processedData = []) then Ok (-1, m)
        else
          let bytesSent := to_int (size processedData) in
          Ok (bytesSent, emit m processedData bytesSent).
Proof. reflexivity. Qed.



End FragmentFacts.



(** ** Receive path *)

Section ReceiveFacts.

Import NetworkManager.

Variable lib : Compression.Library.

Lemma store_empty {A} (i : Z) (x : A) : store [] i x = None.
Proof.
  unfold store, size. change (Z.of_nat (length [])) with 0.
  destruct (Z.leb_spec 0 i), (Z.ltb_spec i 0); first [reflexivity | lia].
Qed.

(** On a manager whose buffers are empty, a fragment is stored past the end
    of its buffer. *)
Lemma processIncomingData_fragment_undefined (m : t) (u : Crypto.Indeterminate)
    (header uninit : NetworkMessage) (epoch_ms now : Z) (payload : list Z)
    (clientId : Z) (processedData : list Z) :
  buffers_empty m ->
  decodeIncoming lib (config_ m) u payload = Some processedData ->
  isFragment header = true ->
  processIncomingData lib m u header uninit epoch_ms now payload clientId = Undefined.
Proof.
  intros Hempty Hdecode Hfrag. unfold processIncomingData.
  rewrite Hdecode. cbn [isFragment messageId fragmentIndex totalFragments].
  rewrite Hfrag.
  assert (Hbuf : fragments (default emptyFragmentInfo
                              (fragmentMap_ m !! messageId header)) = []).
  { destruct (fragmentMap_ m !! messageId header) as [fragmentInfo|] eqn:Hid.
    - exact (Hempty _ _ Hid).
    - reflexivity. }
  rewrite bool_decide_eq_true_2 by exact Hbuf.
  cbn [fragments]. by rewrite Hbuf, store_empty.
Qed.

Lemma sendEach_fragmentMap (send1 : t -> NetworkMessage -> result (Z * t))
    (fragments : list NetworkMessage) (m : t) (totalSent : Z) (r : Z) (m' : t) :
  (∀ m message r m',
     send1 m message = Ok (r, m') -> fragmentMap_ m' = fragmentMap_ m) ->
  sendEach send1 fragments m totalSent = Ok (r, m') ->
  fragmentMap_ m' = fragmentMap_ m.
Proof.
  intros Hsend1. revert m totalSent.
  induction fragments as [|fragment fragments IH]; intros m totalSent Heach.
  - cbn in Heach. by inversion Heach.
  - cbn [sendEach] in Heach.
    destruct (send1 m fragment) as [[r1 m1]| | |] eqn:H1; try discriminate.
    cbn [bind fst snd] in Heach. apply Hsend1 in H1.
    destruct (r1 <? 0).
    + inversion Heach; subst. exact H1.
    + apply IH in Heach. congruence.
Qed.

Lemma send_fragmentMap (fuel : nat) (env : nat -> Draw) (m : t)
    (message : NetworkMessage) (r : Z) (m' : t) :
  send lib fuel env m message = Ok (r, m') -> fragmentMap_ m' = fragmentMap_ m.
Proof.
  revert m message r m'. induction fuel as [|fuel IH]; intros m message r m' Hsend;
    [discriminate|].
  rewrite send_S in Hsend.
  destruct (running_ m); cbn [negb] in Hsend; [|by inversion Hsend].
  assert (Hassign : fragmentMap_ (assignMessageId m message).1 = fragmentMap_ m).
  { unfold assignMessageId. by destruct (messageId message =? 0). }
  destruct (assignMessageId m message) as [m1 msg]. cbn [fst] in Hassign.
  destruct (fragmentSize (config_ m1) <? size (data msg)).
  - destruct (fragmentMessage (config_ m1) msg) as [fragments| | |];
      try discriminate.
    cbn [bind] in Hsend. apply sendEach_fragmentMap in Hsend; [congruence|].
    exact IH.
  - destruct (processOutgoingData lib fuel (config_ m1) _ (data msg))
      as [processedData| | |]; try discriminate.
    cbn [bind] in Hsend. case_bool_decide; inversion Hsend; subst; exact Hassign.
Qed.

(** No call that returns ever grows a fragment buffer. *)
Lemma reachable_buffers_empty (m : t) : reachable lib m -> buffers_empty m.
Proof.
  induction 1 as [config|m _ IH|m _ IH|fuel env m message r m' _ IH Hsend
                 |m u header uninit epoch_ms now payload clientId m' _ IH Hin
                 |m now _ IH|m _ IH].
  - intros id fragmentInfo Hid. cbn in Hid. by rewrite lookup_empty in Hid.
  - exact IH.
  - exact IH.
  - intros id fragmentInfo Hid.
    rewrite (send_fragmentMap _ _ _ _ _ _ Hsend) in Hid. eauto.
  - destruct (decodeIncoming lib (config_ m) u payload) as [processedData|] eqn:Hd.
    + destruct (isFragment header) eqn:Hfrag.
      * by rewrite (processIncomingData_fragment_undefined _ _ _ _ _ _ _ _ _
                      IH Hd Hfrag) in Hin.
      * unfold processIncomingData in Hin. rewrite Hd in Hin.
        cbn [isFragment] in Hin. rewrite Hfrag in Hin.
        inversion Hin; subst. exact IH.
    + unfold processIncomingData in Hin. rewrite Hd in Hin.
      inversion Hin; subst. exact IH.
  - intros id fragmentInfo Hid. cbn in Hid.
    apply map_lookup_filter_Some in Hid as [Hid _]. eauto.
  - unfold receive. by destruct (messageQueue_ m).
Qed.

(** A packet that is no fragment and decodes is delivered: handed to the
    callback, if one is installed, and put on the message queue. *)
Lemma processIncomingData_whole (m : t) (u : Crypto.Indeterminate)
    (header uninit : NetworkMessage) (epoch_ms now : Z) (payload : list Z)
    (clientId : Z) (processedData : list Z) :
  decodeIncoming lib (config_ m) u payload = Some processedData ->
  isFragment header = false ->
  ∃ m' message,
    processIncomingData lib m u header uninit epoch_ms now payload clientId = Ok m'
    ∧ data message = processedData
    ∧ messageQueue_ m' = messageQueue_ m ++ [message]
    ∧ callbackCalls m'
      = (if messageCallback_ m then callbackCalls m ++ [message] else callbackCalls m)
    ∧ config_ m' = config_ m
    ∧ messageCallback_ m' = messageCallback_ m.
Proof.
  intros Hdecode Hwhole. unfold processIncomingData.
  rewrite Hdecode. cbn [isFragment]. rewrite Hwhole.
  eexists _, {| data := processedData;
                timestamp := u32 epoch_ms;
                reliability := reliability header;
                messageId := messageId header;
                fragmentIndex := fragmentIndex header;
                totalFragments := totalFragments header;
                isFragment := false |}.
  split; [reflexivity|]. by cbn.
Qed.

End ReceiveFacts.

(** C4 as the specification words it fails on the packet [9; 9] processed
    twice by a manager with a callback: two messages are queued for the
    application and the callback has fired twice. *)
Lemma duplicate_is_delivered_twice :
  ∃ once twice,
    Inputs.incoming Inputs.listening_plain Inputs.whole_header = Ok once
    ∧ Inputs.incoming once Inputs.whole_header = Ok twice
    ∧ map NetworkManager.data (NetworkManager.messageQueue_ twice) = [[9; 9]; [9; 9]]
    ∧ map NetworkManager.data (NetworkManager.callbackCalls twice) = [[9; 9]; [9; 9]]
    ∧ ¬ (length (NetworkManager.messageQueue_ twice) <= 1)%nat.
Proof.
  eexists _, _. split; [reflexivity|]. split; [reflexivity|].
  split; [reflexivity|]. split; [reflexivity|]. cbn. lia.
Qed.

(** C4, amended.  The receive path keeps no record of what it has seen:
    each time a packet that is no fragment decodes, one message with its
    payload is queued for the application and the callback, if installed,
    fires once.  Processing the same packet twice delivers it twice. *)
Theorem processIncomingData_delivers_every_copy
    (lib : Compression.Library) (m : NetworkManager.t)
    (u1 u2 : Crypto.Indeterminate)
    (header1 uninit1 header2 uninit2 : NetworkManager.NetworkMessage)
    (epoch_ms1 now1 epoch_ms2 now2 : Z) (payload : list Z) (clientId : Z)
    (processedData1 processedData2 : list Z) :
  NetworkManager.decodeIncoming lib (NetworkManager.config_ m) u1 payload
  = Some processedData1 ->
  NetworkManager.decodeIncoming lib (NetworkManager.config_ m) u2 payload
  = Some processedData2 ->
  NetworkManager.isFragment header1 = false ->
  NetworkManager.isFragment header2 = false ->
  ∃ once twice message1 message2,
    NetworkManager.processIncomingData lib m u1 header1 uninit1 epoch_ms1 now1
                                       payload clientId = Ok once
    ∧ NetworkManager.processIncomingData lib once u2 header2 uninit2 epoch_ms2 now2
                                         payload clientId = Ok twice
    ∧ NetworkManager.data message1 = processedData1
    ∧ NetworkManager.data message2 = processedData2
    ∧ NetworkManager.messageQueue_ twice
      = NetworkManager.messageQueue_ m ++ [message1; message2]
    ∧ NetworkManager.callbackCalls twice
      = (if NetworkManager.messageCallback_ m
         then NetworkManager.callbackCalls m ++ [message1; message2]
         else NetworkManager.callbackCalls m).
Proof.
  intros Hd1 Hd2 Hw1 Hw2.
  destruct (processIncomingData_whole lib m u1 header1 uninit1 epoch_ms1 now1
              payload clientId processedData1 Hd1 Hw1)
    as (once & message1 & H1 & Hdata1 & Hq1 & Hc1 & Hcfg1 & Hcb1).
  rewrite <- Hcfg1 in Hd2.
  destruct (processIncomingData_whole lib once u2 header2 uninit2 epoch_ms2 now2
              payload clientId processedData2 Hd2 Hw2)
    as (twice & message2 & H2 & Hdata2 & Hq2 & Hc2 & _ & _).
  exists once, twice, message1, message2.
  split; [exact H1|]. split; [exact H2|]. split; [exact Hdata1|].
  split; [exact Hdata2|]. split.
  - by rewrite Hq2, Hq1, <- app_assoc.
  - rewrite Hc2, Hcb1, Hc1. destruct (NetworkManager.messageCallback_ m); [|done].
    by rewrite <- app_assoc.
Qed.

Lemma processIncomingData_delivers_every_copy_witness :
  NetworkManager.decodeIncoming Inputs.failing_library
    (NetworkManager.config_ Inputs.listening_plain) Inputs.zeroed [9; 9]
  = Some [9; 9]
  ∧ NetworkManager.isFragment Inputs.whole_header = false
  ∧ ∃ once twice message1 message2,
      Inputs.incoming Inputs.listening_plain Inputs.whole_header = Ok once
      ∧ Inputs.incoming once Inputs.whole_header = Ok twice
      ∧ NetworkManager.data message1 = [9; 9]
      ∧ NetworkManager.data message2 = [9; 9]
      ∧ NetworkManager.messageQueue_ twice
        = NetworkManager.messageQueue_ Inputs.listening_plain ++ [message1; message2]
      ∧ NetworkManager.callbackCalls twice
        = (if NetworkManager.messageCallback_ Inputs.listening_plain
           then NetworkManager.callbackCalls Inputs.listening_plain
                ++ [message1; message2]
           else NetworkManager.callbackCalls Inputs.listening_plain).
Proof.
  split; [reflexivity|]. split; [reflexivity|].
  apply (processIncomingData_delivers_every_copy Inputs.failing_library
           Inputs.listening_plain Inputs.zeroed Inputs.zeroed
           Inputs.whole_header Inputs.whole_header
           Inputs.whole_header Inputs.whole_header 0 0 0 0 [9; 9] 0 [9; 9] [9; 9]);
    reflexivity.
Defined.

(** C10.  In every manager the program can reach, the store of a received
    fragment at [fragmentIndex] is past the end of the group's buffer: the
    buffer is created empty and nothing ever resizes it, so the
    out-of-bounds branch is not merely reachable, it is the only one. *)
Theorem fragment_store_is_out_of_bounds
    (lib : Compression.Library) (m : NetworkManager.t) (u : Crypto.Indeterminate)
    (header uninit : NetworkManager.NetworkMessage) (epoch_ms now : Z)
    (payload : list Z) (clientId : Z) (processedData : list Z) :
  NetworkManager.reachable lib m ->
  NetworkManager.decodeIncoming lib (NetworkManager.config_ m) u payload
  = Some processedData ->
  NetworkManager.isFragment header = true ->
  NetworkManager.processIncomingData lib m u header uninit epoch_ms now payload
                                     clientId
  = Undefined.
Proof.
  intros Hreach Hdecode Hfrag.
  eapply processIncomingData_fragment_undefined; [|exact Hdecode|exact Hfrag].
  by apply (reachable_buffers_empty lib).
Qed.

Lemma fragment_store_is_out_of_bounds_witness :
  NetworkManager.reachable Inputs.failing_library Inputs.listening_plain
  ∧ NetworkManager.isFragment Inputs.fragment_header = true
  ∧ Inputs.incoming Inputs.listening_plain Inputs.fragment_header = Undefined.
Proof.
  assert (Hreach : NetworkManager.reachable Inputs.failing_library
                     Inputs.listening_plain).
  { apply NetworkManager.reachable_callback, NetworkManager.reachable_new. }
  split; [exact Hreach|]. split; [reflexivity|].
  apply (fragment_store_is_out_of_bounds Inputs.failing_library
           Inputs.listening_plain Inputs.zeroed Inputs.fragment_header
           Inputs.whole_header 0 0 [9; 9] 0 [9; 9] Hreach); reflexivity.
Defined.

(** * Further properties of the code *)

(** ** Crypto: padding, block helpers, modes *)

Section CryptoFacts.

Import Crypto.

Lemma padding_size_bounds (n : nat) :
  (1 <= BLOCK_SIZE - n mod BLOCK_SIZE <= BLOCK_SIZE)%nat.
Proof.
  unfold BLOCK_SIZE. pose proof (Nat.mod_upper_bound n 16 ltac:(lia)). lia.
Qed.

Lemma padBlock_length (data : list Z) :
  length (padBlock data) = (BLOCK_SIZE * (length data / BLOCK_SIZE + 1))%nat.
Proof.
  unfold padBlock. rewrite length_app, repeat_length. unfold BLOCK_SIZE.
  pose proof (Nat.div_mod_eq (length data) 16).
  pose proof (Nat.mod_upper_bound (length data) 16 ltac:(lia)). lia.
Qed.

Lemma last_repeat_app {A} (l : list A) (x : A) (n : nat) :
  last (l ++ repeat x (S n)) = Some x.
Proof.
  assert (Hsnoc : repeat x (S n) = repeat x n ++ [x]).
  { induction n as [|n IH]; [done|]. cbn [repeat app] in *. by rewrite <- IH. }
  rewrite Hsnoc, app_assoc. apply last_snoc.
Qed.

Lemma encryptBlock_length (b key : block) :
  length (encryptBlock b key) = BLOCK_SIZE.
Proof.
  unfold encryptBlock. change (seq 0 10) with (seq 0 9 ++ [9%nat]).
  rewrite fold_left_app. cbn [fold_left]. unfold encryptRound.
  apply xorBlocks_length.
Qed.

Lemma blocksOf_length (n : nat) (data : list Z) : length (blocksOf n data) = n.
Proof. revert data. induction n as [|n IH]; intros data; cbn; [done|]. by rewrite IH. Qed.

Lemma encryptECB_length (data key : list Z) :
  length (encryptECB data key) = length (padBlock data).
Proof.
  unfold encryptECB, blocks. rewrite padBlock_length.
  replace (BLOCK_SIZE * (length data / BLOCK_SIZE + 1) / BLOCK_SIZE)%nat
    with (length data / BLOCK_SIZE + 1)%nat
    by (unfold BLOCK_SIZE; rewrite Nat.mul_comm, Nat.div_mul; lia).
  generalize (length data / BLOCK_SIZE + 1)%nat (padBlock data).
  intros n l. revert l. induction n as [|n IH]; intros l; [done|].
  cbn [blocksOf map concat]. rewrite length_app, encryptBlock_length, IH. lia.
Qed.

Lemma encryptCBC_loop_length (key previousBlock : block) (bs : list block) :
  length (encryptCBC_loop key previousBlock bs) = (BLOCK_SIZE * length bs)%nat.
Proof.
  revert previousBlock. induction bs as [|b bs IH]; intros previousBlock; [done|].
  cbn [encryptCBC_loop length]. rewrite length_app, encryptBlock_length, IH. lia.
Qed.

Lemma encryptCBC_length (uninit : block) (data key iv : list Z) :
  length (encryptCBC uninit data key iv) = length (padBlock data).
Proof.
  unfold encryptCBC, blocks.
  rewrite encryptCBC_loop_length, blocksOf_length, padBlock_length.
  unfold BLOCK_SIZE. rewrite (Nat.mul_comm 16 (_ + 1)), Nat.div_mul; lia.
Qed.

Lemma validateKey_spec (key : list Z) :
  validateKey key = true ↔ length key = 16%nat ∨ length key = 32%nat.
Proof.
  unfold validateKey, size, KEY_SIZE_128, KEY_SIZE_256.
  change (128 / 8) with 16. change (256 / 8) with 32.
  rewrite orb_true_iff, !Z.eqb_eq. lia.
Qed.

Lemma validateIV_spec (iv : list Z) :
  validateIV iv = true ↔ length iv = 12%nat.
Proof. unfold validateIV, IV_SIZE. apply Nat.eqb_eq. Qed.

End CryptoFacts.

(** X1.  Padding always adds between 1 and 16 bytes and fills the data up
    to a whole number of 16-byte blocks; [unpadBlock] takes exactly that
    padding off again, whatever the data. *)
Theorem unpadBlock_padBlock (data : list Z) :
  Crypto.unpadBlock (Crypto.padBlock data) = Ok data
  ∧ (length (Crypto.padBlock data) mod 16 = 0)%nat
  ∧ (length data < length (Crypto.padBlock data) <= length data + 16)%nat.
Proof.
  pose proof (padding_size_bounds (length data)) as Hp.
  split; [|split].
  - unfold Crypto.padBlock, Crypto.unpadBlock.
    destruct (Crypto.BLOCK_SIZE - length data mod Crypto.BLOCK_SIZE)%nat
      as [|p] eqn:Hpad; [lia|].
    rewrite last_repeat_app.
    assert (Hu8 : u8 (Z.of_nat (S p)) = Z.of_nat (S p)).
    { unfold u8. apply Z.mod_small. unfold Crypto.BLOCK_SIZE in Hp. lia. }
    rewrite Hu8.
    destruct (Z.ltb_spec (Z.of_nat Crypto.BLOCK_SIZE) (Z.of_nat (S p))); [lia|].
    destruct (Z.eqb_spec (Z.of_nat (S p)) 0); [lia|]. cbn [orb].
    rewrite length_app, repeat_length, Nat2Z.id.
    replace (length data + S p - S p)%nat with (length data) by lia.
    by rewrite take_app_length.
  - rewrite padBlock_length. unfold Crypto.BLOCK_SIZE.
    rewrite Nat.mul_comm. apply Nat.Div0.mod_mul.
  - unfold Crypto.padBlock. rewrite length_app, repeat_length.
    unfold Crypto.BLOCK_SIZE in *. lia.
Qed.

(** X2.  [xorBlocks] with the same source twice gives the 16-byte block
    back: the step CBC decryption relies on to remove the chaining value. *)
Theorem xorBlocks_involutive (dest src : Crypto.block) :
  length dest = 16%nat ->
  Crypto.xorBlocks (Crypto.xorBlocks dest src) src = dest.
Proof.
  intros Hlen.
  assert (Hat : ∀ (a b : Crypto.block) (i : nat),
             (i < 16)%nat ->
             at_ (Crypto.xorBlocks a b) i = Z.lxor (at_ a i) (at_ b i)).
  { intros a b i Hi. unfold at_ at 1, Crypto.xorBlocks.
    rewrite (nth_indep _ 0 ((fun k => Z.lxor (at_ a k) (at_ b k)) 0%nat))
      by (rewrite length_map, length_seq; exact Hi).
    rewrite (map_nth (fun k => Z.lxor (at_ a k) (at_ b k))).
    by rewrite seq_nth. }
  apply (nth_ext _ _ 0 0).
  - by rewrite xorBlocks_length.
  - intros i Hi. rewrite xorBlocks_length in Hi.
    fold (at_ (Crypto.xorBlocks (Crypto.xorBlocks dest src) src) i).
    rewrite !Hat by exact Hi.
    by rewrite Z.lxor_assoc, Z.lxor_nilpotent, Z.lxor_0_r.
Qed.

Lemma xorBlocks_involutive_witness :
  length (repeat 7 16) = 16%nat
  ∧ Crypto.xorBlocks (Crypto.xorBlocks (repeat 7 16) Inputs.zero_key) Inputs.zero_key
    = repeat 7 16.
Proof.
  split; [reflexivity|].
  apply (xorBlocks_involutive (repeat 7 16) Inputs.zero_key). reflexivity.
Defined.

(** X3.  Under a valid key and IV, [encrypt] returns in every mode, and the
    ciphertext is one whole block longer than the data rounded down to
    blocks (the padding never is empty); GCM adds its 16 tag bytes. *)
Theorem encrypt_length (u : Crypto.Indeterminate) (data key iv : list Z)
    (mode : Crypto.Mode) :
  Crypto.validateKey key = true ->
  Crypto.validateIV iv = true ->
  length (Crypto.tag0 u) = 16%nat ->
  ∃ ciphertext,
    Crypto.encrypt u data key iv mode = Ok ciphertext
    ∧ length ciphertext
      = (16 * (length data / 16 + 1)
         + match mode with Crypto.GCM => 16 | _ => 0 end)%nat.
Proof.
  intros Hkey Hiv Htag. unfold Crypto.encrypt. rewrite Hkey, Hiv. cbn [negb orb].
  destruct mode; eexists; (split; [reflexivity|]).
  - rewrite encryptECB_length, padBlock_length. unfold Crypto.BLOCK_SIZE. lia.
  - rewrite encryptCBC_length, padBlock_length. unfold Crypto.BLOCK_SIZE. lia.
  - unfold Crypto.encryptGCM.
    rewrite length_app, encryptCBC_length, padBlock_length, length_take, Htag.
    unfold Crypto.BLOCK_SIZE, Crypto.GCM_TAG_SIZE. lia.
Qed.

Lemma encrypt_length_witness :
  Crypto.validateKey Inputs.zero_key = true
  ∧ Crypto.validateIV Inputs.zero_iv = true
  ∧ length (Crypto.tag0 Inputs.zeroed) = 16%nat
  ∧ ∃ ciphertext,
      Crypto.encrypt Inputs.zeroed (repeat 1 16) Inputs.zero_key Inputs.zero_iv
                     Crypto.GCM = Ok ciphertext
      ∧ length ciphertext = (16 * (length (repeat 1 16) / 16 + 1) + 16)%nat.
Proof.
  split; [reflexivity|]. split; [reflexivity|]. split; [reflexivity|].
  apply (encrypt_length Inputs.zeroed (repeat 1 16) Inputs.zero_key Inputs.zero_iv
           Crypto.GCM); reflexivity.
Defined.

(** A ciphertext that is not a whole number of blocks is refused. *)
Lemma decrypt_misaligned_throws (u : Crypto.Indeterminate)
    (encryptedData key iv : list Z) (mode : Crypto.Mode) :
  (length encryptedData mod 16 ≠ 0)%nat ->
  Crypto.decrypt u encryptedData key iv mode = Throw invalid_argument.
Proof.
  intros Hmis. unfold Crypto.decrypt.
  destruct (negb (Crypto.validateKey key) || negb (Crypto.validateIV iv)); [done|].
  assert (Hcheck : ∀ l : list Z, (length l mod 16 ≠ 0)%nat ->
             negb (length l mod Crypto.BLOCK_SIZE =? 0)%nat = true).
  { intros l Hl. unfold Crypto.BLOCK_SIZE.
    by destruct (Nat.eqb_spec (length l mod 16) 0). }
  destruct mode.
  - unfold Crypto.decryptECB. by rewrite Hcheck.
  - unfold Crypto.decryptCBC. by rewrite Hcheck.
  - unfold Crypto.decryptGCM, Crypto.GCM_TAG_SIZE.
    destruct (Nat.ltb_spec (length encryptedData) 16) as [|Hlong]; [done|].
    unfold Crypto.decryptCBC. rewrite Hcheck; [done|].
    rewrite length_take, Nat.min_l by lia.
    intros Hal. apply Hmis.
    pose proof (Nat.div_mod_eq (length encryptedData - 16) 16).
    pose proof (Nat.div_mod_eq (length encryptedData) 16).
    pose proof (Nat.mod_upper_bound (length encryptedData) 16 ltac:(lia)).
    lia.
Qed.

(** X4.  [decrypt] throws [invalid_argument] on every input that is not a
    whole number of 16-byte blocks, in every mode and under every key and
    IV: in ECB and CBC by the size check, in GCM because what is left after
    the tag is misaligned too, or nothing is left. *)
Theorem decrypt_rejects_misaligned (u : Crypto.Indeterminate)
    (encryptedData key iv : list Z) (mode : Crypto.Mode) :
  (length encryptedData mod 16 ≠ 0)%nat ->
  Crypto.decrypt u encryptedData key iv mode = Throw invalid_argument.
Proof. apply decrypt_misaligned_throws. Qed.

Lemma decrypt_rejects_misaligned_witness :
  (length [1; 2; 3] mod 16 ≠ 0)%nat
  ∧ Crypto.decrypt Inputs.zeroed [1; 2; 3] Inputs.zero_key Inputs.zero_iv Crypto.GCM
    = Throw invalid_argument.
Proof.
  split; [discriminate|].
  apply (decrypt_rejects_misaligned Inputs.zeroed [1; 2; 3] Inputs.zero_key
           Inputs.zero_iv Crypto.GCM).
  discriminate.
Defined.

(** X5.  [encrypt] returns a ciphertext exactly when the key has 16 or 32
    bytes and the IV has 12; in every other case it throws
    [invalid_argument], and so does [decrypt], before looking at the data
    or the mode. *)
Theorem encrypt_returns_iff_key_and_iv_valid (u : Crypto.Indeterminate)
    (data key iv : list Z) (mode : Crypto.Mode) :
  ((∃ ciphertext, Crypto.encrypt u data key iv mode = Ok ciphertext)
   ↔ (length key = 16%nat ∨ length key = 32%nat) ∧ length iv = 12%nat)
  ∧ (Crypto.encrypt u data key iv mode = Throw invalid_argument
     ↔ ¬ ((length key = 16%nat ∨ length key = 32%nat) ∧ length iv = 12%nat))
  ∧ (¬ ((length key = 16%nat ∨ length key = 32%nat) ∧ length iv = 12%nat)
     → Crypto.decrypt u data key iv mode = Throw invalid_argument).
Proof.
  rewrite <- validateKey_spec, <- validateIV_spec.
  unfold Crypto.encrypt, Crypto.decrypt.
  destruct (Crypto.validateKey key), (Crypto.validateIV iv); cbn [negb orb].
  - split; [|split].
    + split; [done|]. intros _. destruct mode; eauto.
    + split; [destruct mode; discriminate|tauto].
    + tauto.
  - split; [|split]; [split; [intros [? ?]; discriminate|intros [_ ?]; discriminate]
                     |split; [intros _ [_ ?]; discriminate|done]|done].
  - split; [|split]; [split; [intros [? ?]; discriminate|intros [? _]; discriminate]
                     |split; [intros _ [? _]; discriminate|done]|done].
  - split; [|split]; [split; [intros [? ?]; discriminate|intros [? _]; discriminate]
                     |split; [intros _ [? _]; discriminate|done]|done].
Qed.

(** X6.  Only the first 16 bytes of a key are used: two valid keys that
    agree on them, one of them 32 bytes long, encrypt and decrypt alike. *)
Theorem encrypt_uses_16_key_bytes (u : Crypto.Indeterminate)
    (data key key' iv : list Z) (mode : Crypto.Mode) :
  Crypto.validateKey key = true ->
  Crypto.validateKey key' = true ->
  take 16 key = take 16 key' ->
  Crypto.encrypt u data key iv mode = Crypto.encrypt u data key' iv mode
  ∧ Crypto.decrypt u data key iv mode = Crypto.decrypt u data key' iv mode.
Proof.
  intros Hk Hk' Hsame.
  unfold Crypto.encrypt, Crypto.decrypt. rewrite Hk, Hk'.
  unfold Crypto.encryptECB, Crypto.encryptCBC, Crypto.encryptGCM,
    Crypto.decryptECB, Crypto.decryptCBC, Crypto.decryptGCM, Crypto.encryptCBC,
    Crypto.decryptCBC, Crypto.keyArray, Crypto.BLOCK_SIZE.
  by rewrite Hsame.
Qed.

Lemma encrypt_uses_16_key_bytes_witness :
  Crypto.validateKey Inputs.zero_key = true
  ∧ Crypto.validateKey Inputs.long_key = true
  ∧ take 16 Inputs.zero_key = take 16 Inputs.long_key
  ∧ Crypto.encrypt Inputs.zeroed [1; 2; 3] Inputs.zero_key Inputs.zero_iv Crypto.ECB
    = Crypto.encrypt Inputs.zeroed [1; 2; 3] Inputs.long_key Inputs.zero_iv Crypto.ECB.
Proof.
  split; [reflexivity|]. split; [reflexivity|]. split; [reflexivity|].
  apply (encrypt_uses_16_key_bytes Inputs.zeroed [1; 2; 3] Inputs.zero_key
           Inputs.long_key Inputs.zero_iv Crypto.ECB); reflexivity.
Defined.

(** ** Crypto: hash and signatures *)

Lemma hash_state_length (data : list Z) (h : list Z) :
  length h = 8%nat -> length (fold_left Crypto.hash_step data h) = 8%nat.
Proof.
  revert h. induction data as [|byte data IH]; intros h Hh; [done|].
  cbn [fold_left]. apply IH. unfold Crypto.hash_step.
  by rewrite length_map, length_seq.
Qed.

(** X7.  [hash] always yields 32 bytes.  [verify] accepts what [sign]
    produced for the same data and key; and since [sign] hashes the data
    followed by the key, bytes can move from the front of the key to the
    end of the data without changing the signature. *)
Theorem sign_verify (data extra key : list Z) :
  length (Crypto.hash data) = 32%nat
  ∧ Forall (fun byte => 0 <= byte < 256) (Crypto.hash data)
  ∧ Crypto.verify data (Crypto.sign data key) key = true
  ∧ Crypto.sign (data ++ extra) key = Crypto.sign data (extra ++ key)
  ∧ Crypto.verify (data ++ extra) (Crypto.sign data (extra ++ key)) key = true.
Proof.
  assert (Hwords : ∀ hs : list Z,
             length (concat (map Crypto.hash_word_bytes hs)) = (4 * length hs)%nat
             ∧ Forall (fun byte => 0 <= byte < 256)
                      (concat (map Crypto.hash_word_bytes hs))).
  { induction hs as [|h hs [IHl IHr]]; [by split|].
    cbn [map concat length]. split.
    - rewrite length_app, IHl. cbn. lia.
    - apply Forall_app. split; [|exact IHr].
      unfold Crypto.hash_word_bytes. apply Forall_map, Forall_forall.
      intros i _. unfold u8. apply Z.mod_pos_bound. lia. }
  assert (Hsame : Crypto.sign (data ++ extra) key = Crypto.sign data (extra ++ key)).
  { unfold Crypto.sign. by rewrite <- app_assoc. }
  split; [|split; [|split; [|split]]].
  - unfold Crypto.hash. rewrite (proj1 (Hwords _)), hash_state_length; done.
  - unfold Crypto.hash. apply Hwords.
  - unfold Crypto.verify. by apply bool_decide_eq_true_2.
  - exact Hsame.
  - unfold Crypto.verify. by apply bool_decide_eq_true_2.
Qed.

(** ** Compression below the threshold *)

(** X8.  An input shorter than 64 bytes never reaches lz4 or zstd:
    [shouldCompress] answers no, [compress] hands the input back, and the
    outbound framing with compression on and encryption off leaves the
    payload as it is, whatever the library and the algorithm. *)
Theorem compress_returns_short_input
    (lib : Compression.Library) (fuel : nat) (config : NetworkManager.NetworkConfig)
    (d : NetworkManager.Draw) (data : list Z) (algorithm : Compression.Algorithm) :
  (length data < 64)%nat ->
  NetworkManager.enableCompression config = true ->
  NetworkManager.enableEncryption config = false ->
  Compression.shouldCompress lib (S fuel) data algorithm = Some false
  ∧ Compression.compress lib (S (S fuel)) data algorithm = Some data
  ∧ NetworkManager.processOutgoingData lib (S (S fuel)) config d data = Ok data.
Proof.
  intros Hlen Hc He.
  assert (Hcompress : ∀ algorithm,
             Compression.compress lib (S (S fuel)) data algorithm = Some data).
  { intros a. by apply compress_small. }
  split; [|split; [apply Hcompress|]].
  - cbn [Compression.shouldCompress].
    by destruct (Nat.ltb_spec (length data) Compression.MIN_COMPRESSION_SIZE);
      [|unfold Compression.MIN_COMPRESSION_SIZE in *; lia].
  - unfold NetworkManager.processOutgoingData. by rewrite Hc, He, Hcompress.
Qed.

Lemma compress_returns_short_input_witness :
  (length [1; 2; 3] < 64)%nat
  ∧ NetworkManager.enableCompression (Inputs.compressing Compression.ZSTD) = true
  ∧ NetworkManager.enableEncryption (Inputs.compressing Compression.ZSTD) = false
  ∧ NetworkManager.processOutgoingData Inputs.failing_library 2
      (Inputs.compressing Compression.ZSTD) Inputs.zero_draw [1; 2; 3]
    = Ok [1; 2; 3].
Proof.
  split; [vm_compute; lia|]. split; [reflexivity|]. split; [reflexivity|].
  apply (compress_returns_short_input Inputs.failing_library 0
           (Inputs.compressing Compression.ZSTD) Inputs.zero_draw [1; 2; 3]
           Compression.ZSTD); [vm_compute; lia|reflexivity|reflexivity].
Defined.

(** X9.  With compression on (zstd or none) and encryption off, a non-empty
    payload under 64 bytes comes back from the inbound framing as it was
    sent, provided zstd does not take the raw payload for one of its
    frames. *)
Theorem open_of_seal_short_zstd
    (lib : Compression.Library) (fuel : nat) (config : NetworkManager.NetworkConfig)
    (d : NetworkManager.Draw) (u : Crypto.Indeterminate) (payload : list Z) :
  payload ≠ [] ->
  (length payload < 64)%nat ->
  NetworkManager.enableCompression config = true ->
  NetworkManager.enableEncryption config = false ->
  NetworkManager.compressionAlgorithm config ≠ Compression.LZ4 ->
  Compression.ZSTD_getFrameContentSize lib payload = None ->
  NetworkManager.processOutgoingData lib (S (S fuel)) config d payload = Ok payload
  ∧ NetworkManager.decodeIncoming lib config u payload = Some payload.
Proof.
  intros Hne Hlen Hc He Halg Hframe. split.
  - unfold NetworkManager.processOutgoingData.
    by rewrite Hc, He, compress_small.
  - unfold NetworkManager.decodeIncoming, Compression.decompress.
    rewrite Hc, He, !bool_decide_eq_false_2 by exact Hne.
    destruct (NetworkManager.compressionAlgorithm config); [done|done|].
    by rewrite Hframe.
Qed.

Lemma open_of_seal_short_zstd_witness :
  [1; 2; 3] ≠ []
  ∧ (length [1; 2; 3] < 64)%nat
  ∧ Compression.ZSTD_getFrameContentSize Inputs.failing_library [1; 2; 3] = None
  ∧ NetworkManager.decodeIncoming Inputs.failing_library
      (Inputs.compressing Compression.ZSTD) Inputs.zeroed [1; 2; 3]
    = Some [1; 2; 3].
Proof.
  split; [discriminate|]. split; [vm_compute; lia|]. split; [reflexivity|].
  apply (open_of_seal_short_zstd Inputs.failing_library 0
           (Inputs.compressing Compression.ZSTD) Inputs.zero_draw Inputs.zeroed
           [1; 2; 3]);
    [discriminate|vm_compute; lia|reflexivity|reflexivity|discriminate|reflexivity].
Defined.

(** X10.  With LZ4, a payload of 4 to 63 bytes goes out with no size header
    in front of it, and the inbound framing reads its first four bytes as
    one: what comes back is whatever the lz4 decoder leaves in a buffer of
    that size when run on the rest, and the payload itself only when the
    decoder reports failure. *)
Theorem open_of_seal_short_lz4
    (lib : Compression.Library) (fuel : nat) (config : NetworkManager.NetworkConfig)
    (d : NetworkManager.Draw) (u : Crypto.Indeterminate) (payload : list Z) :
  (4 <= length payload < 64)%nat ->
  NetworkManager.enableCompression config = true ->
  NetworkManager.enableEncryption config = false ->
  NetworkManager.compressionAlgorithm config = Compression.LZ4 ->
  NetworkManager.processOutgoingData lib (S (S fuel)) config d payload = Ok payload
  ∧ NetworkManager.decodeIncoming lib config u payload
    = Some match Compression.LZ4_decompress_safe lib (drop 4 payload) (le32 payload) with
           | Some decompressed => decompressed
           | None => payload
           end.
Proof.
  intros [Hlo Hhi] Hc He Halg. split.
  - unfold NetworkManager.processOutgoingData.
    by rewrite Hc, He, compress_small.
  - assert (Hne : payload ≠ []) by (intros ->; cbn in Hlo; lia).
    unfold NetworkManager.decodeIncoming, Compression.decompress.
    rewrite Hc, He, Halg, !bool_decide_eq_false_2 by exact Hne.
    by destruct (Nat.ltb_spec (length payload) 4); [lia|].
Qed.

Lemma open_of_seal_short_lz4_witness :
  (4 <= length [5; 0; 0; 0; 9] < 64)%nat
  ∧ NetworkManager.decodeIncoming Inputs.zero_filling_library
      (Inputs.compressing Compression.LZ4) Inputs.zeroed [5; 0; 0; 0; 9]
    = Some [0; 0; 0; 0; 0].
Proof.
  split; [vm_compute; lia|].
  apply (open_of_seal_short_lz4 Inputs.zero_filling_library 0
           (Inputs.compressing Compression.LZ4) Inputs.zero_draw Inputs.zeroed
           [5; 0; 0; 0; 9]); [vm_compute; lia|reflexivity|reflexivity|reflexivity].
Defined.

(** ** Priority scheduler: what a dequeue returns, keeps and drops *)

Section DequeueFacts.

Import PacketScheduler.

Lemma pops_split (q : priority_queue) (p : PrioritizedPacket) (rest : priority_queue) :
  pops q p rest -> ∀ o, o ∈ q ↔ o = p ∨ o ∈ rest.
Proof.
  intros H o. destruct (pops_inv _ _ _ H) as (l1 & l2 & Hq & Hrest & _).
  subst q rest. rewrite !elem_of_app, elem_of_cons. tauto.
Qed.

Lemma pops_top (q : priority_queue) (p : PrioritizedPacket) (rest : priority_queue) :
  pops q p rest -> ∀ o, o ∈ rest -> lt p o = false.
Proof.
  intros H o Ho. destruct (pops_inv _ _ _ H) as (l1 & l2 & Hq & Hrest & _ & Hmax).
  apply Hmax. apply (pops_split _ _ _ H). by right.
Qed.

(** A call that returns false found the queue empty. *)
Lemma dequeues_None (now : Z) (q q' : priority_queue) :
  dequeues now q (Ok None) q' -> q = [] ∧ q' = [].
Proof. intros H. by inversion H. Qed.

(** A call that returns a packet took it from the top, unexpired. *)
Lemma dequeues_Some (now : Z) (q : priority_queue) (p : PrioritizedPacket)
    (q' : priority_queue) :
  dequeues now q (Ok (Some p)) q' ->
  pops q p q' ∧ now <= deadline (metadata_ p).
Proof. intros H. inversion H; subst. split; [done|lia]. Qed.

(** A call that does not return has popped an expired packet. *)
Lemma dequeues_NoReturn (now : Z) (q q' : priority_queue) :
  dequeues now q NoReturn q' ->
  ∃ p, pops q p q' ∧ deadline (metadata_ p) < now.
Proof. intros H. inversion H; subst. by eexists. Qed.

(** These are the three ways a call can go. *)
Lemma dequeues_cases (now : Z) (q : priority_queue)
    (r : result (option PrioritizedPacket)) (q' : priority_queue) :
  dequeues now q r q' ->
  r = Ok None ∨ r = NoReturn ∨ ∃ p, r = Ok (Some p).
Proof. destruct 1; eauto. Qed.

End DequeueFacts.

(** X11.  The packet [dequeuePacket] returns was queued, and no packet left
    in the queue has a more urgent priority: a lower-priority packet is
    never released ahead of a queued higher-priority one that has not
    expired. *)
Theorem dequeuePacket_most_urgent_first
    (s : PacketScheduler.t) (now : Z) (packet : PacketScheduler.PrioritizedPacket) :
  (PacketScheduler.dequeuePacket s now).1 = Ok (Some packet) ->
  packet ∈ PacketScheduler.packetQueue_ s
  ∧ ∀ other,
      other ∈ PacketScheduler.packetQueue_ (PacketScheduler.dequeuePacket s now).2 ->
      PacketScheduler.priority_int
        (PacketScheduler.priority (PacketScheduler.metadata_ packet))
      <= PacketScheduler.priority_int
           (PacketScheduler.priority (PacketScheduler.metadata_ other)).
Proof.
  intros Hret. pose proof (dequeuePacket_dequeues s now) as Hrun.
  rewrite Hret in Hrun.
  destruct (dequeues_Some _ _ _ _ Hrun) as [Hpop _].
  split; [apply (pops_split _ _ _ Hpop); by left|]. intros other Ho.
  pose proof (pops_top _ _ _ Hpop other Ho) as Htop.
  apply lt_false_iff in Htop. lia.
Qed.

Lemma dequeuePacket_most_urgent_first_witness :
  (PacketScheduler.dequeuePacket Inputs.two_enqueued 0).1
  = Ok (Some Inputs.second_enqueued)
  ∧ Inputs.second_enqueued ∈ PacketScheduler.packetQueue_ Inputs.two_enqueued.
Proof.
  split; [reflexivity|].
  apply (dequeuePacket_most_urgent_first Inputs.two_enqueued 0
           Inputs.second_enqueued).
  reflexivity.
Defined.


(** X13.  [dequeuePacket] takes nothing out of the queue but the packet it
    returns or a packet that has expired: a queued packet whose deadline
    has not passed is either the packet returned or is still queued,
    also when the call does not return. *)
Theorem dequeuePacket_keeps_live_packets
    (s : PacketScheduler.t) (now : Z) (packet : PacketScheduler.PrioritizedPacket) :
  packet ∈ PacketScheduler.packetQueue_ s ->
  now <= PacketScheduler.deadline (PacketScheduler.metadata_ packet) ->
  (PacketScheduler.dequeuePacket s now).1 = Ok (Some packet)
  ∨ packet ∈ PacketScheduler.packetQueue_ (PacketScheduler.dequeuePacket s now).2.
Proof.
  intros Hin Hlive. pose proof (dequeuePacket_dequeues s now) as Hrun.
  destruct (dequeues_cases _ _ _ _ Hrun) as [Hret|[Hret|[p Hret]]];
    rewrite Hret in Hrun |- *.
  - apply dequeues_None in Hrun as [Hempty _].
    rewrite Hempty in Hin. by apply elem_of_nil in Hin.
  - apply dequeues_NoReturn in Hrun as (p & Hpop & Hexp).
    apply (pops_split _ _ _ Hpop) in Hin as [->|Hin]; [lia|by right].
  - apply dequeues_Some in Hrun as [Hpop _].
    apply (pops_split _ _ _ Hpop) in Hin as [->|Hin]; [by left|by right].
Qed.

Lemma dequeuePacket_keeps_live_packets_witness :
  Inputs.first_enqueued ∈ PacketScheduler.packetQueue_ Inputs.two_enqueued
  ∧ 100 <= PacketScheduler.deadline (PacketScheduler.metadata_ Inputs.first_enqueued)
  ∧ (PacketScheduler.dequeuePacket Inputs.two_enqueued 100).1
    = Ok (Some Inputs.second_enqueued)
  ∧ ((PacketScheduler.dequeuePacket Inputs.two_enqueued 100).1
     = Ok (Some Inputs.first_enqueued)
     ∨ Inputs.first_enqueued
       ∈ PacketScheduler.packetQueue_
           (PacketScheduler.dequeuePacket Inputs.two_enqueued 100).2).
Proof.
  assert (Hin : Inputs.first_enqueued
                ∈ PacketScheduler.packetQueue_ Inputs.two_enqueued)
    by apply list_elem_of_here.
  split; [exact Hin|]. split; [discriminate|]. split; [reflexivity|].
  apply (dequeuePacket_keeps_live_packets Inputs.two_enqueued 100
           Inputs.first_enqueued Hin).
  discriminate.
Defined.

(** X14.  The queue never grows past [maxQueueSize]: [enqueuePacket]
    refuses, and changes nothing, exactly when the queue is full, adds one
    packet otherwise, and [dequeuePacket] only shortens the queue. *)
Theorem scheduler_queue_bounded (s : PacketScheduler.t) (data : list Z)
    (metadata : PacketScheduler.PacketMetadata) (now : Z) :
  size (PacketScheduler.packetQueue_ s) <= PacketScheduler.maxQueueSize_ s ->
  let enqueued := PacketScheduler.enqueuePacket s data metadata in
  let dequeued := PacketScheduler.dequeuePacket s now in
  (enqueued.1 = false
   ↔ size (PacketScheduler.packetQueue_ s) = PacketScheduler.maxQueueSize_ s)
  ∧ (enqueued.1 = false -> enqueued.2 = s)
  ∧ (enqueued.1 = true ->
     size (PacketScheduler.packetQueue_ enqueued.2)
     = size (PacketScheduler.packetQueue_ s) + 1)
  ∧ size (PacketScheduler.packetQueue_ enqueued.2)
    <= PacketScheduler.maxQueueSize_ enqueued.2
  ∧ size (PacketScheduler.packetQueue_ dequeued.2)
    <= size (PacketScheduler.packetQueue_ s)
  ∧ PacketScheduler.maxQueueSize_ dequeued.2 = PacketScheduler.maxQueueSize_ s.
Proof.
  intros Hbound enqueued dequeued.
  assert (Hdeq : size (PacketScheduler.packetQueue_ dequeued.2)
                 <= size (PacketScheduler.packetQueue_ s)
                 ∧ PacketScheduler.maxQueueSize_ dequeued.2
                   = PacketScheduler.maxQueueSize_ s).
  { pose proof (dequeuePacket_dequeues s now) as Hrun. fold dequeued in Hrun.
    split.
    - destruct (dequeues_cases _ _ _ _ Hrun) as [Hret|[Hret|[p Hret]]];
        rewrite Hret in Hrun.
      + destruct (dequeues_None _ _ _ Hrun) as [-> ->]. lia.
      + destruct (dequeues_NoReturn _ _ _ Hrun) as (p & Hpop & _).
        apply pops_length in Hpop. unfold size. lia.
      + destruct (dequeues_Some _ _ _ _ Hrun) as [Hpop _].
        apply pops_length in Hpop. unfold size. lia.
    - subst dequeued. unfold PacketScheduler.dequeuePacket.
      destruct (PacketScheduler.pop _) as [[packet rest]|]; [|done].
      by destruct (_ <? _). }
  subst enqueued. unfold PacketScheduler.enqueuePacket.
  destruct (Z.leb_spec (PacketScheduler.maxQueueSize_ s)
                       (size (PacketScheduler.packetQueue_ s))) as [Hfull|Hroom];
    cbn [fst snd PacketScheduler.set_packetQueue PacketScheduler.packetQueue_
         PacketScheduler.maxQueueSize_].
  - repeat split; try done; try lia. all: apply Hdeq.
  - unfold size in *. rewrite length_app. cbn [length].
    repeat split; try discriminate; try lia. all: apply Hdeq.
Qed.

Lemma scheduler_queue_bounded_witness :
  size (PacketScheduler.packetQueue_ Inputs.two_enqueued)
  <= PacketScheduler.maxQueueSize_ Inputs.two_enqueued
  ∧ size (PacketScheduler.packetQueue_
            (PacketScheduler.enqueuePacket Inputs.two_enqueued [3]
               (Inputs.medium 300 2)).2)
    <= PacketScheduler.maxQueueSize_
         (PacketScheduler.enqueuePacket Inputs.two_enqueued [3]
            (Inputs.medium 300 2)).2.
Proof.
  split; [discriminate|].
  apply (scheduler_queue_bounded Inputs.two_enqueued [3] (Inputs.medium 300 2) 0).
  discriminate.
Defined.



(** ** Connection: invariants of the public interface *)

Section ConnectionFacts.

Import Connection.

Lemma u32_range (z : Z) : 0 <= u32 z < 2 ^ 32.
Proof. unfold u32. apply Z.mod_pos_bound. lia. Qed.

Lemma set_lastResendTime_fields (p : Packet) (now : Z) :
  sequenceNumber (set_lastResendTime p now) = sequenceNumber p
  ∧ reliability (set_lastResendTime p now) = reliability p
  ∧ isAcknowledged (set_lastResendTime p now) = isAcknowledged p
  ∧ data (set_lastResendTime p now) = data p
  ∧ lastResendTime (set_lastResendTime p now) = now.
Proof. done. Qed.

Lemma queuePacket_consistent (c : t) (epoch_ms now : Z) (payload : list Z)
    (r : PacketReliability) :
  tables_consistent c -> tables_consistent (queuePacket c epoch_ms now payload r).
Proof.
  intros (Htable & Hqueue & Hnext). unfold queuePacket.
  destruct (decide (r = UNRELIABLE)) as [->|Hr];
    (split; [|split; [|apply u32_range]]);
    cbn [unacknowledgedPackets_ outgoingPackets_].
  - exact Htable.
  - apply Forall_app. split; [exact Hqueue|]. by apply Forall_singleton.
  - intros seq packet [[<- <-]|[_ Hseq]]%lookup_insert_Some; [done|].
    by apply Htable.
  - exact Hqueue.
Qed.

Lemma handleAcknowledgment_consistent (c : t) (acked : Z) :
  tables_consistent c -> tables_consistent (handleAcknowledgment c acked).
Proof.
  intros (Htable & Hqueue & Hnext). unfold handleAcknowledgment.
  destruct (unacknowledgedPackets_ c !! acked); [|done].
  split; [|by split]. cbn. intros seq packet [_ Hseq]%lookup_delete_Some.
  by apply Htable.
Qed.

Lemma processIncomingPacket_consistent (c : t) (epoch_ms now : Z) (payload : list Z) :
  tables_consistent c ->
  tables_consistent (processIncomingPacket c epoch_ms now payload).2.
Proof.
  intros Hc. unfold processIncomingPacket.
  destruct (length payload <? 4)%nat; [exact Hc|].
  pose proof (queuePacket_consistent c epoch_ms now (bytes_le32 (le32 payload))
                UNRELIABLE Hc) as Hq.
  assert (Hi : tables_consistent
                 (incr_packetsReceived
                    (queuePacket c epoch_ms now (bytes_le32 (le32 payload))
                                 UNRELIABLE))) by exact Hq.
  destruct (length payload =? 4)%nat; cbn [snd]; [|exact Hi].
  by apply handleAcknowledgment_consistent.
Qed.

Lemma getPacketsToSend_consistent (c : t) (now : Z) :
  tables_consistent c -> tables_consistent (getPacketsToSend c now).2.
Proof.
  intros (Htable & Hqueue & Hnext). unfold getPacketsToSend. cbn [snd].
  split; [|by split]. cbn [set_tables unacknowledgedPackets_].
  intros seq packet (p & <- & Hseq)%lookup_fmap_Some.
  specialize (Htable seq p Hseq). by destruct (shouldResendPacket p now).
Qed.

Lemma resend_survivor (c : t) (now seq : Z) (packet : Packet) :
  unacknowledgedPackets_ (resendUnacknowledgedPackets c now) !! seq = Some packet ->
  ∃ before,
    unacknowledgedPackets_ c !! seq = Some before
    ∧ shouldResendPacket before now = true
    ∧ packet = set_lastResendTime before now.
Proof.
  rewrite resendUnacknowledgedPackets_lookup.
  destruct (unacknowledgedPackets_ c !! seq) as [before|]; [|discriminate].
  destruct (shouldResendPacket before now) eqn:Hdue; [|discriminate].
  intros [= <-]. by exists before.
Qed.

Lemma update_consistent (c : t) (now : Z) :
  tables_consistent c -> tables_consistent (update c now).
Proof.
  intros (Htable & Hqueue & Hnext).
  destruct (update_counters c now) as (_ & _ & Hout).
  split; [|split].
  - intros seq packet. rewrite update_unacknowledgedPackets.
    intros (before & Hseq & _ & ->)%resend_survivor. exact (Htable _ _ Hseq).
  - by rewrite Hout.
  - unfold update. destruct (1 <=? _); [|done].
    unfold updateStatistics. by destruct (0 <? _).
Qed.

Lemma statistics_untouched (c : t) :
  reachable c ->
  packetsSent_ c = 0 ∧ packetsLost_ c = 0 ∧ packetLoss_ c = 0%Q ∧ rtt_ c = 0%Q.
Proof.
  induction 1 as [maxPacketSize now|c connected _ IH|c epoch_ms now payload r _ IH
                 |c epoch_ms now payload _ IH|c now _ IH|c now _ IH].
  - done.
  - exact IH.
  - unfold queuePacket. by destruct (decide (r = UNRELIABLE)).
  - unfold processIncomingPacket, queuePacket, handleAcknowledgment.
    destruct (length payload <? 4)%nat; [exact IH|].
    destruct (length payload =? 4)%nat; cbn; [|exact IH].
    by destruct (_ !! le32 payload).
  - exact IH.
  - destruct IH as (Hsent & Hlost & Hloss & Hrtt).
    unfold update, updateStatistics. rewrite Hsent. cbn [Z.ltb Z.compare].
    by destruct (1 <=? _).
Qed.

End ConnectionFacts.

(** X16.  Nothing in [Connection] ever counts a packet as sent or lost or
    measures a round trip: however a connection is driven through its
    public interface, [getPacketsSent], [getPacketsLost], [getPacketLoss]
    and [getRTT] all stay at zero. *)
Theorem connection_statistics_stay_zero (c : Connection.t) :
  Connection.reachable c ->
  Connection.packetsSent_ c = 0
  ∧ Connection.packetsLost_ c = 0
  ∧ Connection.packetLoss_ c = 0%Q
  ∧ Connection.rtt_ c = 0%Q.
Proof. apply statistics_untouched. Qed.

Lemma connection_statistics_stay_zero_witness :
  Connection.reachable
    (Connection.update
       (Connection.queuePacket (Connection.new 1024 0) 0 0 [1; 2; 3] RELIABLE)
       (milliseconds 2000))
  ∧ Connection.packetsSent_
      (Connection.update
         (Connection.queuePacket (Connection.new 1024 0) 0 0 [1; 2; 3] RELIABLE)
         (milliseconds 2000)) = 0.
Proof.
  assert (H : Connection.reachable
                (Connection.update
                   (Connection.queuePacket (Connection.new 1024 0) 0 0 [1; 2; 3]
                                           RELIABLE)
                   (milliseconds 2000))).
  { apply Connection.reachable_update, Connection.reachable_queuePacket,
      Connection.reachable_new. }
  split; [exact H|].
  exact (proj1 (connection_statistics_stay_zero _ H)).
Defined.

(** X17.  However a connection is driven, every entry of the
    unacknowledged table sits under its own sequence number, is a reliable
    packet and is not marked acknowledged; the outgoing queue holds
    unreliable packets only; and the next sequence number stays within 32
    bits. *)
Theorem connection_tables_stay_consistent (c : Connection.t) :
  Connection.reachable c -> Connection.tables_consistent c.
Proof.
  induction 1 as [maxPacketSize now|c connected _ IH|c epoch_ms now payload r _ IH
                 |c epoch_ms now payload _ IH|c now _ IH|c now _ IH].
  - split; [|split; [apply Forall_nil_2|cbn; lia]].
    intros seq packet Hseq. cbn in Hseq. by rewrite lookup_empty in Hseq.
  - exact IH.
  - by apply queuePacket_consistent.
  - by apply processIncomingPacket_consistent.
  - by apply getPacketsToSend_consistent.
  - by apply update_consistent.
Qed.

Lemma connection_tables_stay_consistent_witness :
  Connection.reachable
    (Connection.queuePacket (Connection.new 1024 0) 0 0 [1; 2; 3] RELIABLE)
  ∧ Connection.tables_consistent
      (Connection.queuePacket (Connection.new 1024 0) 0 0 [1; 2; 3] RELIABLE).
Proof.
  assert (H : Connection.reachable
                (Connection.queuePacket (Connection.new 1024 0) 0 0 [1; 2; 3]
                                        RELIABLE)).
  { apply Connection.reachable_queuePacket, Connection.reachable_new. }
  split; [exact H|]. exact (connection_tables_stay_consistent _ H).
Defined.

(** ** Connection: the periodic pass, resends and acknowledgements *)

Section ResendFacts.

Import Connection.

Lemma refreshed_is_not_due (p : Packet) (now later : Z) :
  later - now < 1000000000 ->
  shouldResendPacket (set_lastResendTime p now) later = false.
Proof.
  intros Hsoon.
  destruct (shouldResendPacket (set_lastResendTime p now) later) eqn:Hdue; [|done].
  apply shouldResendPacket_spec in Hdue. cbn in Hdue. lia.
Qed.

(** After [update] at [now], no entry is due at any instant less than a
    second later. *)
Lemma nothing_due_after_update (c : t) (now later : Z) :
  later - now < 1000000000 ->
  filter (fun kv => shouldResendPacket kv.2 later = true)
         (unacknowledgedPackets_ (update c now)) = ∅.
Proof.
  intros Hsoon. apply map_empty. intros seq.
  apply map_lookup_filter_None_2.
  destruct (unacknowledgedPackets_ (update c now) !! seq) as [packet|] eqn:Hseq;
    [right|by left].
  intros packet' [= <-]. cbn [snd].
  rewrite update_unacknowledgedPackets in Hseq.
  apply resend_survivor in Hseq as (before & _ & _ & ->).
  by rewrite refreshed_is_not_due.
Qed.

Lemma bytes_le32_le32 (b0 b1 b2 b3 : Z) (rest : list Z) :
  0 <= b0 < 256 -> 0 <= b1 < 256 -> 0 <= b2 < 256 -> 0 <= b3 < 256 ->
  bytes_le32 (le32 (b0 :: b1 :: b2 :: b3 :: rest)) = [b0; b1; b2; b3].
Proof.
  intros H0 H1 H2 H3. unfold bytes_le32, le32, at_, u8. cbn [nth].
  change (2 ^ 8) with 256. change (2 ^ 16) with 65536. change (2 ^ 24) with 16777216.
  repeat f_equal; Z.div_mod_to_equations; lia.
Qed.

End ResendFacts.

(** X18.  Two runs of the periodic [update] less than a second apart leave
    the unacknowledged table empty, whatever it held: the first run
    refreshes the entries it keeps, and the second finds none of them
    due and erases them. *)
Theorem two_updates_empty_the_table (c : Connection.t) (now later : Z) :
  later - now < 1000000000 ->
  Connection.unacknowledgedPackets_ (Connection.update (Connection.update c now) later)
  = ∅.
Proof.
  intros Hsoon. apply map_empty. intros seq.
  rewrite update_unacknowledgedPackets, resendUnacknowledgedPackets_lookup.
  destruct (Connection.unacknowledgedPackets_ (Connection.update c now) !! seq)
    as [packet|] eqn:Hseq; [|done].
  rewrite update_unacknowledgedPackets in Hseq.
  apply resend_survivor in Hseq as (before & _ & _ & ->).
  by rewrite refreshed_is_not_due.
Qed.

Lemma two_updates_empty_the_table_witness :
  milliseconds 1001 - milliseconds 1000 < 1000000000
  ∧ Connection.unacknowledgedPackets_
      (Connection.update (Connection.update Inputs.one_pending (milliseconds 1000))
                         (milliseconds 1001))
    = ∅.
Proof.
  split; [reflexivity|].
  apply (two_updates_empty_the_table Inputs.one_pending (milliseconds 1000)
           (milliseconds 1001)).
  reflexivity.
Defined.

(** X19.  One turn of the network loop for a connection ([update], then
    [getPacketsToSend] less than a second later) hands over exactly the
    outgoing queue, which it drains, and counts its bytes: no packet of the
    unacknowledged table is ever among the packets to send. *)
Theorem networkLoop_sends_outgoing_queue_only
    (c : Connection.t) (now later bytesSent : Z) :
  later - now < 1000000000 ->
  ∃ c',
    NetworkManager.networkLoop_connection c now later bytesSent
    = (Connection.outgoingPackets_ c, c',
       fold_left (fun sent packet =>
                    NetworkManager.u64 (sent + size (Connection.data packet)))
                 (Connection.outgoingPackets_ c) bytesSent)
    ∧ Connection.outgoingPackets_ c' = [].
Proof.
  intros Hsoon. unfold NetworkManager.networkLoop_connection, Connection.getPacketsToSend.
  rewrite (nothing_due_after_update c now later Hsoon), map_to_list_empty.
  destruct (update_counters c now) as (_ & _ & ->).
  cbn [fmap list_fmap app]. eexists. split; reflexivity.
Qed.

Lemma networkLoop_sends_outgoing_queue_only_witness :
  milliseconds 2000 - milliseconds 2000 < 1000000000
  ∧ ∃ c',
      NetworkManager.networkLoop_connection Inputs.one_of_each (milliseconds 2000)
                                            (milliseconds 2000) 0
      = (Connection.outgoingPackets_ Inputs.one_of_each, c', 2)
      ∧ Connection.outgoingPackets_ c' = [].
Proof.
  split; [reflexivity|].
  apply (networkLoop_sends_outgoing_queue_only Inputs.one_of_each
           (milliseconds 2000) (milliseconds 2000) 0).
  reflexivity.
Defined.

(** X20.  [processIncomingPacket] refuses a packet shorter than 4 bytes and
    changes nothing.  For every other packet, acknowledgements included, it
    returns true, counts the packet, and appends to the outgoing queue an
    unreliable packet whose payload is the first four bytes received and
    whose sequence number is the connection's next one. *)
Theorem processIncomingPacket_acks_every_packet
    (c : Connection.t) (epoch_ms now : Z) (payload : list Z) :
  Forall (fun byte => 0 <= byte < 256) payload ->
  let r := Connection.processIncomingPacket c epoch_ms now payload in
  ((length payload < 4)%nat -> r = (false, c))
  ∧ ((4 <= length payload)%nat ->
     r.1 = true
     ∧ Connection.packetsReceived_ r.2 = u32 (Connection.packetsReceived_ c + 1)
     ∧ Connection.nextSequenceNumber_ r.2 = u32 (Connection.nextSequenceNumber_ c + 1)
     ∧ Connection.outgoingPackets_ r.2
       = Connection.outgoingPackets_ c
         ++ [{| Connection.sequenceNumber := Connection.nextSequenceNumber_ c;
                Connection.timestamp := u32 epoch_ms;
                Connection.reliability := UNRELIABLE;
                Connection.data := take 4 payload;
                Connection.isAcknowledged := false;
                Connection.lastResendTime := now |}]).
Proof.
  intros Hbytes r. subst r. unfold Connection.processIncomingPacket. split.
  - intros Hshort. by destruct (Nat.ltb_spec (length payload) 4); [|lia].
  - intros Hlong. destruct (Nat.ltb_spec (length payload) 4); [lia|].
    destruct payload as [|b0 [|b1 [|b2 [|b3 rest]]]]; try (cbn in Hlong; lia).
    apply Forall_cons in Hbytes as [H0 Hbytes].
    apply Forall_cons in Hbytes as [H1 Hbytes].
    apply Forall_cons in Hbytes as [H2 Hbytes].
    apply Forall_cons in Hbytes as [H3 _].
    rewrite bytes_le32_le32 by assumption.
    unfold Connection.queuePacket, Connection.handleAcknowledgment.
    destruct (decide (UNRELIABLE = UNRELIABLE)); [|done].
    destruct (length (b0 :: b1 :: b2 :: b3 :: rest) =? 4)%nat; cbn [fst snd];
      [destruct (_ !! le32 _)|]; done.
Qed.

Lemma processIncomingPacket_acks_every_packet_witness :
  Forall (fun byte => 0 <= byte < 256) [7; 0; 0; 0]
  ∧ (4 <= length [7; 0; 0; 0])%nat
  ∧ Connection.outgoingPackets_
      (Connection.processIncomingPacket Inputs.one_pending 0 0 [7; 0; 0; 0]).2
    = Connection.outgoingPackets_ Inputs.one_pending
      ++ [{| Connection.sequenceNumber := 1;
             Connection.timestamp := 0;
             Connection.reliability := UNRELIABLE;
             Connection.data := [7; 0; 0; 0];
             Connection.isAcknowledged := false;
             Connection.lastResendTime := 0 |}].
Proof.
  assert (Hbytes : Forall (fun byte => 0 <= byte < 256) [7; 0; 0; 0]).
  { repeat constructor; lia. }
  split; [exact Hbytes|]. split; [vm_compute; lia|].
  apply (processIncomingPacket_acks_every_packet Inputs.one_pending 0 0
           [7; 0; 0; 0] Hbytes).
  vm_compute; lia.
Defined.

(** X21.  What an inbound packet does to the unacknowledged table: a packet
    of exactly 4 bytes removes the entry whose sequence number it spells,
    if there is one, and no other; a longer packet leaves the table as it
    is. *)
Theorem processIncomingPacket_table
    (c : Connection.t) (epoch_ms now : Z) (payload : list Z) :
  (4 <= length payload)%nat ->
  Connection.unacknowledgedPackets_
    (Connection.processIncomingPacket c epoch_ms now payload).2
  = if (length payload =? 4)%nat
    then delete (le32 payload) (Connection.unacknowledgedPackets_ c)
    else Connection.unacknowledgedPackets_ c.
Proof.
  intros Hlong. unfold Connection.processIncomingPacket.
  destruct (Nat.ltb_spec (length payload) 4); [lia|].
  unfold Connection.queuePacket, Connection.handleAcknowledgment.
  destruct (decide (UNRELIABLE = UNRELIABLE)); [|done].
  destruct (length payload =? 4)%nat; cbn [fst snd]; [|done].
  cbn [Connection.incr_packetsReceived Connection.unacknowledgedPackets_].
  destruct (Connection.unacknowledgedPackets_ c !! le32 payload) eqn:Hseq; [done|].
  cbn [Connection.unacknowledgedPackets_]. by rewrite delete_id.
Qed.

Lemma processIncomingPacket_table_witness :
  (4 <= length [0; 0; 0; 0])%nat
  ∧ Connection.unacknowledgedPackets_
      (Connection.processIncomingPacket Inputs.one_pending 0 0 [0; 0; 0; 0]).2
    = delete 0 (Connection.unacknowledgedPackets_ Inputs.one_pending).
Proof.
  split; [vm_compute; lia|].
  apply (processIncomingPacket_table Inputs.one_pending 0 0 [0; 0; 0; 0]).
  vm_compute; lia.
Defined.

(** X22.  What [getPacketsToSend] returns is, first, the unacknowledged
    packets due for resend, each of them once and no other packet, as they
    stood in the table before the call, and after them the outgoing queue in
    its order.  In the table the entries due have their resend time set to
    the instant of the call and every other entry is as it was, so no entry
    is removed; the outgoing queue is empty; and asked again at the same
    instant the connection has nothing left to hand over. *)
Theorem getPacketsToSend_drains_queue_keeps_table (c : Connection.t) (now : Z) :
  let r := Connection.getPacketsToSend c now in
  ∃ resent : list (Z * Connection.Packet),
    r.1 = resent.*2 ++ Connection.outgoingPackets_ c
    ∧ NoDup resent.*1
    ∧ (∀ seq p,
         (seq, p) ∈ resent
         ↔ Connection.unacknowledgedPackets_ c !! seq = Some p
           ∧ Connection.shouldResendPacket p now = true)
    ∧ (∀ seq,
         Connection.unacknowledgedPackets_ r.2 !! seq
         = (fun p => if Connection.shouldResendPacket p now
                     then Connection.set_lastResendTime p now else p)
             <$> Connection.unacknowledgedPackets_ c !! seq)
    ∧ Connection.outgoingPackets_ r.2 = []
    ∧ (Connection.getPacketsToSend r.2 now).1 = [].
Proof.
  intros r. subst r.
  exists (map_to_list
            (filter (fun kv => Connection.shouldResendPacket kv.2 now = true)
                    (Connection.unacknowledgedPackets_ c))).
  split; [reflexivity|]. split; [apply NoDup_fst_map_to_list|].
  split; [|split; [|split; [reflexivity|]]].
  - intros seq p. rewrite elem_of_map_to_list. apply map_lookup_filter_Some.
  - intros seq. unfold Connection.getPacketsToSend.
    cbn [snd Connection.set_tables Connection.unacknowledgedPackets_].
    apply lookup_fmap.
  - unfold Connection.getPacketsToSend. cbn [fst snd Connection.set_tables
      Connection.unacknowledgedPackets_ Connection.outgoingPackets_].
    rewrite app_nil_r.
    assert (Hnone : filter (fun kv => Connection.shouldResendPacket kv.2 now = true)
                      ((fun p => if Connection.shouldResendPacket p now
                                 then Connection.set_lastResendTime p now else p)
                         <$> Connection.unacknowledgedPackets_ c) = ∅).
    { apply map_empty. intros seq. apply map_lookup_filter_None_2.
      rewrite lookup_fmap.
      destruct (Connection.unacknowledgedPackets_ c !! seq) as [p|]; [right|by left].
      intros p' [= <-]. cbn [snd].
      destruct (Connection.shouldResendPacket p now) eqn:Hdue.
      - rewrite refreshed_is_not_due by lia. discriminate.
      - rewrite Hdue. discriminate. }
    by rewrite Hnone, map_to_list_empty.
Qed.

(** ** NetworkManager: edges of send *)

(** X23.  [send] on a manager that is not running returns -1 and touches
    nothing, not even the message id counter.  On a running manager that
    neither compresses nor encrypts, an empty message is refused with -1
    as well: nothing reaches the socket and no byte is counted. *)
Theorem send_refuses (lib : Compression.Library) (fuel : nat)
    (env : nat -> NetworkManager.Draw) (m : NetworkManager.t)
    (message : NetworkManager.NetworkMessage) :
  (NetworkManager.running_ m = false ->
   NetworkManager.send lib (S fuel) env m message = Ok (-1, m))
  ∧ (NetworkManager.running_ m = true ->
     NetworkManager.enableCompression (NetworkManager.config_ m) = false ->
     NetworkManager.enableEncryption (NetworkManager.config_ m) = false ->
     0 <= NetworkManager.fragmentSize (NetworkManager.config_ m) ->
     NetworkManager.data message = [] ->
     ∃ m',
       NetworkManager.send lib (S fuel) env m message = Ok (-1, m')
       ∧ NetworkManager.socket m' = NetworkManager.socket m
       ∧ NetworkManager.bytesSent_ m' = NetworkManager.bytesSent_ m).
Proof.
  split.
  - intros Hrun. by rewrite send_S, Hrun.
  - intros Hrun Hc He Hfs Hdata. rewrite send_S, Hrun. cbn [negb].
    destruct (assignMessageId_preserves m message) as (Hd & Hcfg & _ & Hs).
    assert (Hb : NetworkManager.bytesSent_ (NetworkManager.assignMessageId m message).1
                 = NetworkManager.bytesSent_ m).
    { unfold NetworkManager.assignMessageId.
      by destruct (NetworkManager.messageId message =? 0). }
    destruct (NetworkManager.assignMessageId m message) as [m1 msg].
    cbn [fst snd] in Hd, Hcfg, Hs, Hb. rewrite Hcfg, Hd, Hdata.
    destruct (Z.ltb_spec (NetworkManager.fragmentSize (NetworkManager.config_ m))
                         (size (@nil Z))) as [Hlt|_];
      [unfold size in Hlt; cbn in Hlt; lia|].
    unfold NetworkManager.processOutgoingData. rewrite Hc, He. cbn [bind].
    rewrite bool_decide_eq_true_2 by reflexivity. by exists m1.
Qed.

Lemma send_refuses_witness :
  NetworkManager.running_ (NetworkManager.new (Inputs.plain 4)) = false
  ∧ NetworkManager.send Inputs.failing_library 1 (fun _ => Inputs.zero_draw)
      (NetworkManager.new (Inputs.plain 4)) Inputs.ten_bytes
    = Ok (-1, NetworkManager.new (Inputs.plain 4)).
Proof.
  split; [reflexivity|].
  apply (send_refuses Inputs.failing_library 0 (fun _ => Inputs.zero_draw)
           (NetworkManager.new (Inputs.plain 4)) Inputs.ten_bytes).
  reflexivity.
Defined.

(** X24.  With [fragmentSize] configured as 0, [send] of any non-empty
    message on a running manager reaches the division by [fragmentSize] in
    [fragmentMessage]: an integer division by zero. *)
Theorem send_divides_by_zero_fragmentSize (lib : Compression.Library) (fuel : nat)
    (env : nat -> NetworkManager.Draw) (m : NetworkManager.t)
    (message : NetworkManager.NetworkMessage) :
  NetworkManager.running_ m = true ->
  NetworkManager.fragmentSize (NetworkManager.config_ m) = 0 ->
  NetworkManager.data message ≠ [] ->
  NetworkManager.send lib (S fuel) env m message = Undefined.
Proof.
  intros Hrun Hfs Hdata. rewrite send_S, Hrun. cbn [negb].
  destruct (assignMessageId_preserves m message) as (Hd & Hcfg & _ & _).
  destruct (NetworkManager.assignMessageId m message) as [m1 msg].
  cbn [fst snd] in Hd, Hcfg. rewrite Hcfg, Hd, Hfs.
  destruct (Z.ltb_spec 0 (size (NetworkManager.data message))) as [_|Hle].
  - unfold NetworkManager.fragmentMessage. by rewrite Hfs.
  - destruct (NetworkManager.data message); [done|].
    unfold size in Hle. cbn in Hle. lia.
Qed.

Lemma send_divides_by_zero_fragmentSize_witness :
  NetworkManager.running_ Inputs.running_plain_0 = true
  ∧ NetworkManager.fragmentSize (NetworkManager.config_ Inputs.running_plain_0) = 0
  ∧ NetworkManager.data Inputs.ten_bytes ≠ []
  ∧ NetworkManager.send Inputs.failing_library 1 (fun _ => Inputs.zero_draw)
      Inputs.running_plain_0 Inputs.ten_bytes
    = Undefined.
Proof.
  split; [reflexivity|]. split; [reflexivity|]. split; [discriminate|].
  apply (send_divides_by_zero_fragmentSize Inputs.failing_library 0
           (fun _ => Inputs.zero_draw) Inputs.running_plain_0 Inputs.ten_bytes);
    [reflexivity|reflexivity|discriminate].
Defined.

(** ** NetworkManager: the receive path *)

(** X25.  [processIncomingData] drops, without a trace, the empty packet
    and, when encryption is on, every packet that is shorter than the IV or
    whose part after the IV is not a whole number of cipher blocks: the
    manager is left exactly as it was and nothing is delivered. *)
Theorem processIncomingData_drops_undecodable
    (lib : Compression.Library) (m : NetworkManager.t) (u : Crypto.Indeterminate)
    (header uninit : NetworkManager.NetworkMessage) (epoch_ms now : Z)
    (payload : list Z) (clientId : Z) :
  payload = []
  ∨ (NetworkManager.enableEncryption (NetworkManager.config_ m) = true
     ∧ ((length payload < 12)%nat ∨ ((length payload - 12) mod 16 ≠ 0)%nat)) ->
  NetworkManager.processIncomingData lib m u header uninit epoch_ms now payload
                                     clientId
  = Ok m.
Proof.
  intros Hbad.
  assert (Hnone : NetworkManager.decodeIncoming lib (NetworkManager.config_ m) u
                    payload = None).
  { unfold NetworkManager.decodeIncoming.
    case_bool_decide as Hnil; [done|].
    destruct Hbad as [->|[He Hbad]]; [done|]. rewrite He.
    unfold Crypto.IV_SIZE.
    destruct (Nat.ltb_spec (length payload) 12) as [|Hlong]; [done|].
    destruct Hbad as [|Hmis]; [lia|].
    rewrite decrypt_misaligned_throws; [done|]. by rewrite length_drop. }
  unfold NetworkManager.processIncomingData. by rewrite Hnone.
Qed.

Lemma processIncomingData_drops_undecodable_witness :
  ([1; 2; 3] = []
   ∨ (NetworkManager.enableEncryption
        (NetworkManager.config_ (NetworkManager.new (Inputs.encrypting Crypto.GCM)))
      = true
      ∧ ((length [1; 2; 3] < 12)%nat ∨ ((length [1; 2; 3] - 12) mod 16 ≠ 0)%nat)))
  ∧ NetworkManager.processIncomingData Inputs.failing_library
      (NetworkManager.new (Inputs.encrypting Crypto.GCM)) Inputs.zeroed
      Inputs.whole_header Inputs.whole_header 0 0 [1; 2; 3] 0
    = Ok (NetworkManager.new (Inputs.encrypting Crypto.GCM)).
Proof.
  assert (H : [1; 2; 3] = []
              ∨ (NetworkManager.enableEncryption
                   (NetworkManager.config_
                      (NetworkManager.new (Inputs.encrypting Crypto.GCM))) = true
                 ∧ ((length [1; 2; 3] < 12)%nat
                    ∨ ((length [1; 2; 3] - 12) mod 16 ≠ 0)%nat))).
  { right. split; [reflexivity|]. left. vm_compute; lia. }
  split; [exact H|].
  exact (processIncomingData_drops_undecodable Inputs.failing_library
           (NetworkManager.new (Inputs.encrypting Crypto.GCM)) Inputs.zeroed
           Inputs.whole_header Inputs.whole_header 0 0 [1; 2; 3] 0 H).
Defined.

(** X26.  Messages come out of [receive] in the order their packets were
    processed: after two packets that are no fragments, on a manager whose
    queue was empty, the first [receive] yields the first payload, the
    second the second, and the third reports an empty queue. *)
Theorem receive_in_order_of_arrival
    (lib : Compression.Library) (m : NetworkManager.t)
    (u1 u2 : Crypto.Indeterminate)
    (header1 uninit1 header2 uninit2 : NetworkManager.NetworkMessage)
    (epoch_ms1 now1 epoch_ms2 now2 : Z) (payload1 payload2 : list Z)
    (clientId1 clientId2 : Z) (data1 data2 : list Z) :
  NetworkManager.messageQueue_ m = [] ->
  NetworkManager.decodeIncoming lib (NetworkManager.config_ m) u1 payload1
  = Some data1 ->
  NetworkManager.decodeIncoming lib (NetworkManager.config_ m) u2 payload2
  = Some data2 ->
  NetworkManager.isFragment header1 = false ->
  NetworkManager.isFragment header2 = false ->
  ∃ m1 m2 message1 message2,
    NetworkManager.processIncomingData lib m u1 header1 uninit1 epoch_ms1 now1
                                       payload1 clientId1 = Ok m1
    ∧ NetworkManager.processIncomingData lib m1 u2 header2 uninit2 epoch_ms2 now2
                                         payload2 clientId2 = Ok m2
    ∧ NetworkManager.data message1 = data1
    ∧ NetworkManager.data message2 = data2
    ∧ (NetworkManager.receive m2).1 = Some message1
    ∧ (NetworkManager.receive (NetworkManager.receive m2).2).1 = Some message2
    ∧ (NetworkManager.receive
         (NetworkManager.receive (NetworkManager.receive m2).2).2).1 = None.
Proof.
  intros Hq Hd1 Hd2 Hw1 Hw2.
  destruct (processIncomingData_whole lib m u1 header1 uninit1 epoch_ms1 now1
              payload1 clientId1 data1 Hd1 Hw1)
    as (m1 & message1 & H1 & Hdata1 & Hq1 & _ & Hcfg1 & _).
  rewrite <- Hcfg1 in Hd2.
  destruct (processIncomingData_whole lib m1 u2 header2 uninit2 epoch_ms2 now2
              payload2 clientId2 data2 Hd2 Hw2)
    as (m2 & message2 & H2 & Hdata2 & Hq2 & _).
  exists m1, m2, message1, message2.
  rewrite Hq1, Hq in Hq2. cbn in Hq2.
  unfold NetworkManager.receive. rewrite Hq2. cbn. done.
Qed.

Lemma receive_in_order_of_arrival_witness :
  NetworkManager.messageQueue_ Inputs.listening_plain = []
  ∧ ∃ m1 m2 message1 message2,
      NetworkManager.processIncomingData Inputs.failing_library
        Inputs.listening_plain Inputs.zeroed Inputs.whole_header
        Inputs.whole_header 0 0 [1] 0 = Ok m1
      ∧ NetworkManager.processIncomingData Inputs.failing_library m1
          Inputs.zeroed Inputs.whole_header Inputs.whole_header 0 0 [2] 0 = Ok m2
      ∧ NetworkManager.data message1 = [1]
      ∧ NetworkManager.data message2 = [2]
      ∧ (NetworkManager.receive m2).1 = Some message1
      ∧ (NetworkManager.receive (NetworkManager.receive m2).2).1 = Some message2
      ∧ (NetworkManager.receive
           (NetworkManager.receive (NetworkManager.receive m2).2).2).1 = None.
Proof.
  split; [reflexivity|].
  apply (receive_in_order_of_arrival Inputs.failing_library Inputs.listening_plain
           Inputs.zeroed Inputs.zeroed Inputs.whole_header Inputs.whole_header
           Inputs.whole_header Inputs.whole_header 0 0 0 0 [1] [2] 0 0 [1] [2]);
    reflexivity.
Defined.

(** ** NetworkManager: fragment groups and client timeouts *)

Section FragmentMapFacts.

Import NetworkManager.

Variable lib : Compression.Library.

Lemma set_fragmentMap_same (m : t) : set_fragmentMap m (fragmentMap_ m) = m.
Proof. by destruct m. Qed.

Lemma reachable_fragmentMap_empty (m : t) : reachable lib m -> fragmentMap_ m = ∅.
Proof.
  induction 1 as [config|m _ IH|m _ IH|fuel env m message r m' _ IH Hsend
                 |m u header uninit epoch_ms now payload clientId m' Hm IH Hin
                 |m now _ IH|m _ IH].
  - done.
  - exact IH.
  - exact IH.
  - by rewrite (send_fragmentMap _ _ _ _ _ _ _ Hsend).
  - destruct (decodeIncoming lib (config_ m) u payload) as [processedData|] eqn:Hd.
    + destruct (isFragment header) eqn:Hfrag.
      * rewrite (processIncomingData_fragment_undefined lib _ _ _ _ _ _ _ _ _
                   (reachable_buffers_empty lib m Hm) Hd Hfrag) in Hin.
        discriminate.
      * unfold processIncomingData in Hin. rewrite Hd in Hin.
        cbn [isFragment] in Hin. rewrite Hfrag in Hin.
        inversion Hin; subst. exact IH.
    + unfold processIncomingData in Hin. rewrite Hd in Hin.
      inversion Hin; subst. exact IH.
  - cbn. rewrite IH. apply map_filter_empty.
  - unfold receive. by destruct (messageQueue_ m).
Qed.

Lemma fold_left_disconnectClient (ids : list Z) (connections_ : gmap Z Connection.t)
    (id : Z) :
  fold_left disconnectClient ids connections_ !! id
  = if decide (id ∈ ids) then None else connections_ !! id.
Proof.
  revert connections_. induction ids as [|x ids IH]; intros connections_.
  - cbn. by rewrite decide_False by apply not_elem_of_nil.
  - cbn [fold_left]. rewrite IH. unfold disconnectClient.
    destruct (decide (id ∈ ids)) as [Hin|Hnin].
    + by rewrite decide_True by (by right).
    + destruct (decide (id = x)) as [->|Hne].
      * rewrite decide_True by left. apply lookup_delete_eq.
      * rewrite decide_False by (rewrite elem_of_cons; tauto).
        by apply lookup_delete_ne.
Qed.

End FragmentMapFacts.

(** X27.  No manager the program can reach holds a fragment group: a
    group is only ever entered on the path that then stores past the end of
    its buffer.  [cleanupExpiredFragments] therefore never has anything to
    reclaim and leaves every reachable manager as it is. *)
Theorem no_fragment_group_is_ever_held
    (lib : Compression.Library) (m : NetworkManager.t) (now : Z) :
  NetworkManager.reachable lib m ->
  NetworkManager.fragmentMap_ m = ∅
  ∧ NetworkManager.cleanupExpiredFragments m now = m.
Proof.
  intros Hm. pose proof (reachable_fragmentMap_empty lib m Hm) as Hempty.
  split; [exact Hempty|].
  unfold NetworkManager.cleanupExpiredFragments.
  rewrite Hempty, map_filter_empty, <- Hempty. apply set_fragmentMap_same.
Qed.

Lemma no_fragment_group_is_ever_held_witness :
  NetworkManager.reachable Inputs.failing_library Inputs.listening_plain
  ∧ NetworkManager.fragmentMap_ Inputs.listening_plain = ∅.
Proof.
  assert (Hreach : NetworkManager.reachable Inputs.failing_library
                     Inputs.listening_plain).
  { apply NetworkManager.reachable_callback, NetworkManager.reachable_new. }
  split; [exact Hreach|].
  exact (proj1 (no_fragment_group_is_ever_held Inputs.failing_library
                  Inputs.listening_plain 0 Hreach)).
Defined.

(** X28.  [reassembleFragments] applied to the complete list of fragments
    that [fragmentMessage] made, in index order, rebuilds the message: the
    payload byte for byte, with the id, reliability and timestamp of the
    original, and [isFragment] cleared. *)
Theorem reassembleFragments_fragmentMessage
    (config : NetworkManager.NetworkConfig)
    (message uninit : NetworkManager.NetworkMessage)
    (fragmentInfo : NetworkManager.FragmentInfo) :
  0 < NetworkManager.fragmentSize config < 2 ^ 32 ->
  0 < size (NetworkManager.data message) < 2 ^ 32 ->
  NetworkManager.fragmentMessage config message
  = Ok (NetworkManager.fragments fragmentInfo) ->
  ∃ reassembled,
    NetworkManager.reassembleFragments uninit fragmentInfo = Some reassembled
    ∧ NetworkManager.data reassembled = NetworkManager.data message
    ∧ NetworkManager.messageId reassembled = NetworkManager.messageId message
    ∧ NetworkManager.reliability reassembled = NetworkManager.reliability message
    ∧ NetworkManager.timestamp reassembled = NetworkManager.timestamp message
    ∧ NetworkManager.isFragment reassembled = false.
Proof.
  intros Hfs Hn Hfrag.
  pose proof (fragmentMessage_spec config message Hfs (proj2 Hn)) as Hspec.
  cbn zeta in Hspec. rewrite Hspec in Hfrag. injection Hfrag as Hfrags.
  set (fs := NetworkManager.fragmentSize config) in *.
  set (n := size (NetworkManager.data message)) in *.
  set (N := (n + fs - 1) / fs) in *.
  pose proof (ceil_div_bounds n fs (proj1 Hfs) ltac:(lia)) as HN. fold N in HN.
  assert (HN1 : 1 <= N) by nia.
  set (F := fun i : nat => _) in Hfrags.
  assert (Hfirst : NetworkManager.fragments fragmentInfo !! 0%nat = Some (F 0%nat)).
  { rewrite <- Hfrags. change (map F ?l) with (F <$> l).
    rewrite list_lookup_fmap, lookup_seq_lt by lia. reflexivity. }
  unfold NetworkManager.reassembleFragments. rewrite Hfirst.
  eexists. split; [reflexivity|].
  cbn [NetworkManager.data NetworkManager.messageId NetworkManager.reliability
       NetworkManager.timestamp NetworkManager.isFragment F].
  split; [|done].
  rewrite <- Hfrags, map_map. subst F. cbn [NetworkManager.data].
  rewrite chunks_concat by (fold n; lia). fold n.
  rewrite Z2Nat.id by lia. apply slice_all. fold n. lia.
Qed.

Lemma reassembleFragments_fragmentMessage_witness :
  0 < NetworkManager.fragmentSize (Inputs.plain 4) < 2 ^ 32
  ∧ 0 < size (NetworkManager.data Inputs.ten_bytes) < 2 ^ 32
  ∧ ∃ fragments reassembled,
      NetworkManager.fragmentMessage (Inputs.plain 4) Inputs.ten_bytes = Ok fragments
      ∧ NetworkManager.reassembleFragments Inputs.whole_header
          {| NetworkManager.fragments := fragments;
             NetworkManager.fi_timestamp := 0;
             NetworkManager.fi_totalFragments := 3;
             NetworkManager.receivedFragments := 3 |}
        = Some reassembled
      ∧ NetworkManager.data reassembled = NetworkManager.data Inputs.ten_bytes.
Proof.
  split; [vm_compute; split; reflexivity|].
  split; [vm_compute; split; reflexivity|].
  eexists. 
  destruct (reassembleFragments_fragmentMessage (Inputs.plain 4) Inputs.ten_bytes
              Inputs.whole_header
              {| NetworkManager.fragments :=
                   match NetworkManager.fragmentMessage (Inputs.plain 4)
                           Inputs.ten_bytes with
                   | Ok fragments => fragments
                   | _ => []
                   end;
                 NetworkManager.fi_timestamp := 0;
                 NetworkManager.fi_totalFragments := 3;
                 NetworkManager.receivedFragments := 3 |})
    as (reassembled & Hre & Hdata & _);
    [vm_compute; split; reflexivity|vm_compute; split; reflexivity|reflexivity|].
  exists reassembled. split; [reflexivity|]. split; [exact Hre|exact Hdata].
Defined.

(** X29.  After [checkConnectionTimeouts] a client is connected exactly
    when it was connected before and its recorded last activity, if any,
    is less than [connectionTimeout] milliseconds old; a client with no
    recorded activity is never timed out. *)
Theorem checkConnectionTimeouts_connected
    (connectionTimeout : Z) (lastActivity : gmap Z Z)
    (connections_ : gmap Z Connection.t) (now clientId : Z) :
  NetworkManager.isClientConnected
    (NetworkManager.checkConnectionTimeouts connectionTimeout lastActivity
                                            connections_ now) clientId = true
  ↔ NetworkManager.isClientConnected connections_ clientId = true
    ∧ ∀ last, lastActivity !! clientId = Some last ->
              now - last < milliseconds connectionTimeout.
Proof.
  unfold NetworkManager.isClientConnected, NetworkManager.checkConnectionTimeouts.
  rewrite !bool_decide_eq_true, fold_left_disconnectClient.
  set (expired := filter _ lastActivity).
  assert (Hin : clientId ∈ (map_to_list expired).*1
                ↔ ∃ last, lastActivity !! clientId = Some last
                          ∧ milliseconds connectionTimeout <= now - last).
  { rewrite list_elem_of_fmap. split.
    - intros ([id last] & -> & Hl). apply elem_of_map_to_list in Hl.
      apply map_lookup_filter_Some in Hl as [Hl Hexp]. by exists last.
    - intros (last & Hl & Hexp). exists (clientId, last). split; [done|].
      apply elem_of_map_to_list, map_lookup_filter_Some. by split. }
  destruct (decide (clientId ∈ (map_to_list expired).*1)) as [Hyes|Hno].
  - apply Hin in Hyes as (last & Hl & Hexp). split.
    + by intros [? ?].
    + intros [_ Hfresh]. specialize (Hfresh last Hl). lia.
  - split.
    + intros Hc. split; [exact Hc|]. intros last Hl.
      destruct (Z_lt_le_dec (now - last) (milliseconds connectionTimeout));
        [done|]. exfalso. apply Hno, Hin. by exists last.
    + by intros [Hc _].
Qed.

(** ** Crypto: ECB works block by block *)

(** X30.  In ECB mode the first 16 bytes of the data are encrypted on their
    own: the ciphertext of a block followed by more data is the encrypted
    block followed by the ciphertext of that data, so equal plaintext
    blocks give equal ciphertext blocks. *)
Theorem encryptECB_block_by_block (b data key : list Z) :
  length b = 16%nat ->
  Crypto.encryptECB (b ++ data) key
  = Crypto.encryptBlock b (Crypto.keyArray key) ++ Crypto.encryptECB data key.
Proof.
  intros Hb.
  assert (Hpad : Crypto.padBlock (b ++ data) = b ++ Crypto.padBlock data).
  { unfold Crypto.padBlock, Crypto.BLOCK_SIZE. rewrite length_app, Hb.
    replace ((16 + length data) mod 16)%nat with (length data mod 16)%nat.
    - by rewrite <- app_assoc.
    - replace (16 + length data)%nat with (length data + 1 * 16)%nat by lia.
      by rewrite Nat.Div0.mod_add. }
  unfold Crypto.encryptECB, Crypto.blocks. rewrite Hpad, length_app, Hb.
  unfold Crypto.BLOCK_SIZE.
  replace ((16 + length (Crypto.padBlock data)) / 16)%nat
    with (S (length (Crypto.padBlock data) / 16)).
  - cbn [Crypto.blocksOf map concat]. unfold Crypto.BLOCK_SIZE.
    assert (Htake : ∀ l : list Z, take 16 (b ++ l) = b)
      by (intros l; rewrite <- Hb; apply take_app_length).
    assert (Hdrop : ∀ l : list Z, drop 16 (b ++ l) = l)
      by (intros l; rewrite <- Hb; apply drop_app_length).
    by rewrite Htake, Hdrop.
  - replace (16 + length (Crypto.padBlock data))%nat
      with (length (Crypto.padBlock data) + 1 * 16)%nat by lia.
    rewrite Nat.div_add by lia. lia.
Qed.

Lemma encryptECB_block_by_block_witness :
  length (repeat 1 16) = 16%nat
  ∧ Crypto.encryptECB (repeat 1 16 ++ [2; 3]) Inputs.zero_key
    = Crypto.encryptBlock (repeat 1 16) (Crypto.keyArray Inputs.zero_key)
      ++ Crypto.encryptECB [2; 3] Inputs.zero_key.
Proof.
  split; [reflexivity|].
  apply (encryptECB_block_by_block (repeat 1 16) [2; 3] Inputs.zero_key).
  reflexivity.
Defined.
